(** * Legal_AI_Analyzer: the analysis pipeline and its job tracker

    A shallow embedding of [legal_document_processor.py], [pdf_processor.py]
    and [simple_api.py], and the properties of the pipeline that the
    specification states about them.

    Conventions of the embedding.
    - A Python [str] is a [string] whose characters are the code points
      U+0000..U+00FF; [str.lower], [str.isspace] and the regex classes [\s]
      and [\d] are modelled on that range, where they agree with CPython.
    - A Python [float] that is the quotient of two small integers, or a
      confidence returned by a model, is a rational [Q]; the literal [0.1] is
      the rational value of the IEEE double that CPython reads for it.
    - A [dict] whose iteration order matters is an association list in
      insertion order; one that is only looked up is a [gmap].
    - Code that may raise returns an [Outcome]; code that also touches the
      module-level state of the API runs in the monad [M].
    - The server is a transition system over the state of the process.  The
      event loop runs one coroutine at a time and switches only at an
      [await]; the only [await] of the sources is [await file.read()] in
      [analyze_pdf_document], so that handler takes two steps and every other
      handler, and the background task, takes one.
    - [uuid.uuid4()] is assumed never to return the same id twice where the
      statement says so. *)

From Stdlib Require Import Ascii String List ZArith QArith Lia Bool.
From stdpp Require Import gmap strings list fin_maps pretty.

(* ===================================================================== *)
(** * Python built-ins used by the sources *)
(* ===================================================================== *)

Module Py.

(** ** Exceptions and outcomes *)

(** [HTTPException] is FastAPI's; every other exception is kept by the name
    of its class and its message.  All of them derive from [Exception]. *)
Inductive exn : Type :=
| HTTPException (status_code : Z) (detail : string)
| PyException (class_name : string) (message : string).

Inductive Outcome (A : Type) : Type :=
| Ok (a : A)
| Raise (e : exn).
Arguments Ok {A} a.
Arguments Raise {A} e.

Definition obind {A B} (o : Outcome A) (k : A → Outcome B) : Outcome B :=
  match o with
  | Ok a => k a
  | Raise e => Raise e
  end.

(** ** Characters *)

Definition ord (c : ascii) : nat := nat_of_ascii c.

(** [c.lower()] for one code point below U+0100: the ASCII capitals and the
    Latin-1 capitals U+00C0..U+00DE, the multiplication sign excepted. *)
Definition char_lower (c : ascii) : ascii :=
  let n := ord c in
  if ((65 <=? n) && (n <=? 90)) ||
     ((192 <=? n) && (n <=? 222) && negb (n =? 215))
  then ascii_of_nat (n + 32)
  else c.

(** [c.isspace()], which is also the regex class [\s] on [str] patterns. *)
Definition isspace (c : ascii) : bool :=
  let n := ord c in
  ((9 <=? n) && (n <=? 13)) || ((28 <=? n) && (n <=? 32)) ||
  (n =? 133) || (n =? 160).

(** The regex class [\d] below U+0100. *)
Definition isdigit (c : ascii) : bool :=
  let n := ord c in (48 <=? n) && (n <=? 57).

(** ** Strings *)

Fixpoint str_lower (s : string) : string :=
  match s with
  | EmptyString => EmptyString
  | String c s' => String (char_lower c) (str_lower s')
  end.

Fixpoint startswith (p s : string) : bool :=
  match p, s with
  | EmptyString, _ => true
  | String a p', String b s' => if ascii_dec a b then startswith p' s' else false
  | String _ _, EmptyString => false
  end.

(** [sub in s] *)
Fixpoint str_contains (sub s : string) : bool :=
  startswith sub s ||
  match s with
  | EmptyString => false
  | String _ s' => str_contains sub s'
  end.

(** [s.endswith(suffix)] *)
Definition endswith (suffix s : string) : bool :=
  startswith (String.rev suffix) (String.rev s).

Fixpoint lstrip (s : string) : string :=
  match s with
  | EmptyString => EmptyString
  | String c s' => if isspace c then lstrip s' else s
  end.

(** [s.strip()] *)
Definition strip (s : string) : string :=
  String.rev (lstrip (String.rev (lstrip s))).

(** [not s] for a string. *)
Definition str_falsy (s : string) : bool :=
  match s with
  | EmptyString => true
  | String _ _ => false
  end.

(** [s.replace(old, new)] for a non-empty [old]: the occurrences are taken
    from left to right and do not overlap.  [skip] counts the characters of
    an occurrence just replaced that are still to be passed over. *)
Fixpoint replace_from (skip : nat) (old new s : string) : string :=
  match s with
  | EmptyString => EmptyString
  | String c s' =>
      match skip with
      | S k => replace_from k old new s'
      | O =>
          if startswith old s
          then new +:+ replace_from (String.length old - 1) old new s'
          else String c (replace_from 0 old new s')
      end
  end.

Definition replace (old new s : string) : string := replace_from 0 old new s.

(** [re.sub(r'C+', repl, s)] for a character class [C]: every maximal run
    of characters of the class becomes one [repl].  [in_run] says that the
    previous character was of the class. *)
Fixpoint re_sub_runs_from (in_run : bool) (cls : ascii → bool)
    (repl s : string) : string :=
  match s with
  | EmptyString => EmptyString
  | String c s' =>
      if cls c
      then if in_run
           then re_sub_runs_from true cls repl s'
           else repl +:+ re_sub_runs_from true cls repl s'
      else String c (re_sub_runs_from false cls repl s')
  end.

Definition re_sub_runs := re_sub_runs_from false.

(** [s.split()]: the maximal runs of non-space characters.  [cur] is the
    word being read, reversed. *)
Fixpoint split_from (cur : option string) (s : string) : list string :=
  match s with
  | EmptyString => option_list (String.rev <$> cur)
  | String c s' =>
      if isspace c
      then option_list (String.rev <$> cur) ++ split_from None s'
      else split_from (Some (String c (default EmptyString cur))) s'
  end.

Definition split (s : string) : list string := split_from None s.

(** ** Ordered dictionaries *)

Section Dict.
Context {V : Type}.

Fixpoint dict_get (d : list (string * V)) (k : string) : option V :=
  match d with
  | [] => None
  | (k', v) :: d' => if decide (k' = k) then Some v else dict_get d' k
  end.

(** [d[k] = v]: an existing key keeps its place. *)
Fixpoint dict_set (d : list (string * V)) (k : string) (v : V)
    : list (string * V) :=
  match d with
  | [] => [(k, v)]
  | (k', v') :: d' =>
      if decide (k' = k) then (k, v) :: d' else (k', v') :: dict_set d' k v
  end.

(** [d[k]] *)
Definition dict_getitem (d : list (string * V)) (k : string) : Outcome V :=
  match dict_get d k with
  | Some v => Ok v
  | None => Raise (PyException "KeyError" k)
  end.
End Dict.

(** ** Numbers *)

(** [a / b] on two integers. *)
Definition truediv (a b : nat) : Outcome Q :=
  match b with
  | O => Raise (PyException "ZeroDivisionError" "division by zero")
  | S _ => Ok (inject_Z (Z.of_nat a) / inject_Z (Z.of_nat b))%Q
  end.

(** [x > y] on floats. *)
Definition float_gt (x y : Q) : bool := negb (Qle_bool x y).

(** [max(d, key=d.get)]: the keys are visited in insertion order and the
    running maximum is replaced only by a strictly greater value, so the
    first of several maximal keys is returned.  Visiting the items gives
    each key with the value [d.get] returns for it. *)
Fixpoint max_from (best : string * Q) (items : list (string * Q)) : string :=
  match items with
  | [] => fst best
  | it :: items' =>
      if float_gt (snd it) (snd best)
      then max_from it items'
      else max_from best items'
  end.

Definition max_key (d : list (string * Q)) : Outcome string :=
  match d with
  | [] => Raise (PyException "ValueError" "max() arg is an empty sequence")
  | it :: d' => Ok (max_from it d')
  end.

End Py.

Import Py.

#[global] Instance outcome_ret : MRet Outcome := @Ok.
#[global] Instance outcome_bind : MBind Outcome := λ A B k o, obind o k.

(* ===================================================================== *)
(** * legal_document_processor.py *)
(* ===================================================================== *)

Module Processor.

(** The value of the literal [0.1]: the double nearest to one tenth. *)
Definition float_0_1 : Q := 3602879701896397 # 36028797018963968.

(** One item of [doc.ents]. *)
Record Span := { label_ : string; span_text : string }.

(** The answer of the question-answering pipeline: [result['answer']] and
    [result['score']]. *)
Record QAResult := { answer : string; score : Q }.

(** One value of [extracted_clauses]. *)
Record Clause := { text : string; confidence : Q }.

(** The loaded models of a [LegalDocumentProcessor] instance.  A call of a
    model either returns or raises.
    - [nlp text] is [self.nlp(text).ents];
    - [qa_pipeline question context] is [self.qa_pipeline(...)], where a
      result without a usable ['score'] or ['answer'] counts as raising,
      since both are read inside the same [try];
    - [t5 input_text max_length] is tokenizer encoding (truncated to 512
      tokens), beam-search generation (min_length 30, length_penalty 2.0,
      4 beams, early stopping) and decoding. *)
Record LegalDocumentProcessor := {
  nlp : string → Outcome (list Span);
  qa_pipeline : string → string → Outcome QAResult;
  t5 : string → Z → Outcome string
}.

Record Classification := {
  document_type : string;
  cls_confidence : Q;
  all_scores : list (string * Q)
}.

Record DocumentInfo := {
  info_type : string;
  info_confidence : Q;
  info_length : nat;
  processed_at : string
}.

Record AnalysisResult := {
  document_info : DocumentInfo;
  entities : gmap string (list string);
  key_clauses : gmap string Clause;
  summary : string;
  classification_scores : list (string * Q)
}.

(** [preprocess_text] *)
Definition preprocess_text (text : string) : string :=
  let text := re_sub_runs isspace " " (strip text) in
  let text := re_sub_runs (λ c, bool_decide (c = "010"%char)) " " text in
  let text := re_sub_runs (λ c, bool_decide (c = "009"%char)) " " text in
  text.

Definition doc_indicators : list (string * list string) :=
  [ ("contract", ["agreement"; "party"; "whereas"; "covenant"]);
    ("license", ["license"; "licensor"; "licensee"; "grant"]);
    ("lease", ["lease"; "lessor"; "lessee"; "rent"; "premises"]);
    ("employment", ["employee"; "employer"; "employment"; "salary"]);
    ("nda", ["confidential"; "non-disclosure"; "proprietary"]) ].

(** The loop of [classify_document_type] that fills [scores]. *)
Fixpoint score_loop (text_lower : string) (items : list (string * list string))
    (scores : list (string * Q)) : Outcome (list (string * Q)) :=
  match items with
  | [] => Ok scores
  | (doc_type, indicators) :: items' =>
      let score :=
        length (filter (λ indicator, str_contains indicator text_lower = true)
                       indicators) in
      s ← truediv score (length indicators);
      score_loop text_lower items' (dict_set scores doc_type s)
  end.

(** [classify_document_type] *)
Definition classify_document_type (text : string) : Outcome Classification :=
  let text_lower := str_lower text in
  scores ← score_loop text_lower doc_indicators [];
  predicted_type ← max_key scores;
  confidence ← dict_getitem scores predicted_type;
  Ok {| document_type := predicted_type;
        cls_confidence := confidence;
        all_scores := scores |}.

(** The regex [\$[\d,]+(?:\.\d{2})?] tried at the start of [s]: a dollar
    sign, the longest run of digits and commas (at least one), and two
    decimals after a point when they are there.  The optional group can
    match nothing, so the longest run never has to be given back. *)
Fixpoint money_run (s : string) : string * string :=
  match s with
  | String c s' =>
      if isdigit c || bool_decide (c = ","%char)
      then let '(run, rest) := money_run s' in (String c run, rest)
      else (EmptyString, s)
  | EmptyString => (EmptyString, EmptyString)
  end.

Definition money_match (s : string) : option string :=
  match s with
  | String c s1 =>
      if bool_decide (c = "$"%char)
      then let '(run, rest) := money_run s1 in
           match run with
           | EmptyString => None
           | String _ _ =>
               match rest with
               | String p (String d1 (String d2 _)) =>
                   if bool_decide (p = "."%char) && isdigit d1 && isdigit d2
                   then Some (String c (run +:+ String p (String d1 (String d2 ""))))
                   else Some (String c run)
               | _ => Some (String c run)
               end
           end
      else None
  | EmptyString => None
  end.

(** [re.findall] for a pattern without groups whose matches are never
    empty: the matches from left to right, the search resuming behind each
    one.  [skip] counts the characters of the last match still to pass. *)
Fixpoint findall_from (match_at : string → option string) (skip : nat)
    (s : string) : list string :=
  match s with
  | EmptyString => []
  | String _ s' =>
      match skip with
      | S k => findall_from match_at k s'
      | O =>
          match match_at s with
          | Some m => m :: findall_from match_at (String.length m - 1) s'
          | None => findall_from match_at 0 s'
          end
      end
  end.

Definition findall (match_at : string → option string) (s : string) :=
  findall_from match_at 0 s.

Definition empty_entities : gmap string (list string) :=
  <["PERSON" := []]> (<["ORG" := []]> (<["DATE" := []]>
    (<["MONEY" := []]> (<["GPE" := []]> ∅)))).

(** The loop over [doc.ents]: [entities[ent.label_].append(ent.text)] when
    the label is a key. *)
Definition add_entity (entities : gmap string (list string)) (ent : Span)
    : gmap string (list string) :=
  match entities !! label_ ent with
  | Some spans => <[label_ ent := spans ++ [span_text ent]]> entities
  | None => entities
  end.

Section Methods.
Variable self : LegalDocumentProcessor.
(** [datetime.now().isoformat()] *)
Variable now : string.

(** [extract_legal_entities] *)
Definition extract_legal_entities (text : string)
    : Outcome (gmap string (list string)) :=
  ents ← nlp self text;
  let entities := fold_left add_entity ents empty_entities in
  let monetary_amounts := findall money_match text in
  Ok (<["monetary_amounts" := monetary_amounts]> entities).

Definition questions_for (document_type : option string) : list string :=
  if decide (document_type = Some "contract") then
    [ "What is the effective date?";
      "Who are the parties?";
      "What are the payment terms?";
      "What is the governing law?" ]
  else if decide (document_type = Some "employment") then
    [ "What is the salary?";
      "What is the job title?";
      "When does employment start?";
      "What are the benefits?" ]
  else
    [ "What are the main terms?";
      "Who are the parties involved?";
      "What are the key obligations?" ].

Definition clause_key (question : string) : string :=
  replace "?" "" (replace "What are " "" (replace "What is " "" question)).

(** The body of the loop of [extract_key_clauses]: the [try] block, and
    the [except Exception] that only logs a warning. *)
Definition clause_step (text : string) (extracted_clauses : gmap string Clause)
    (question : string) : gmap string Clause :=
  match qa_pipeline self question text with
  | Ok result =>
      if float_gt (score result) float_0_1
      then <[clause_key question :=
               {| text := answer result; confidence := score result |}]>
             extracted_clauses
      else extracted_clauses
  | Raise _ => extracted_clauses
  end.

(** [extract_key_clauses] *)
Definition extract_key_clauses (text : string) (document_type : option string)
    : gmap string Clause :=
  let questions := questions_for document_type in
  fold_left (clause_step text) questions ∅.

(** [generate_summary] *)
Definition generate_summary (text : string) (max_length : Z) : Outcome string :=
  let input_text := "summarize: " +:+ text in
  t5 self input_text max_length.

(** [analyze_document] *)
Definition analyze_document (text : string) : Outcome AnalysisResult :=
  let processed_text := preprocess_text text in
  doc_classification ← classify_document_type processed_text;
  entities ← extract_legal_entities processed_text;
  let clauses :=
    extract_key_clauses processed_text
      (Some (document_type doc_classification)) in
  summary ← generate_summary processed_text 150;
  Ok {| document_info :=
          {| info_type := document_type doc_classification;
             info_confidence := cls_confidence doc_classification;
             info_length := length (split text);
             processed_at := now |};
        entities := entities;
        key_clauses := clauses;
        summary := summary;
        classification_scores := all_scores doc_classification |}.
End Methods.

End Processor.

(** ** Construction of a [LegalDocumentProcessor] *)

Module ProcessorInit.
Section Loading.
(** The loaded objects, and the loaders: [AutoTokenizer.from_pretrained],
    [AutoModel.from_pretrained], [T5Tokenizer.from_pretrained],
    [T5ForConditionalGeneration.from_pretrained], [pipeline(task, model=...)]
    and [spacy.load].  A loader either returns or raises. *)
Context {Tokenizer Model T5Tok T5Model QAPipeline Nlp : Type}.
Variable AutoTokenizer : string → Outcome Tokenizer.
Variable AutoModel : string → Outcome Model.
Variable T5Tokenizer : string → Outcome T5Tok.
Variable T5ForConditionalGeneration : string → Outcome T5Model.
Variable pipeline : string → string → Outcome QAPipeline.
Variable spacy_load : string → Outcome Nlp.

(** The attributes that [load_models] and [setup_nlp_pipeline] set. *)
Record Loaded := {
  legal_tokenizer : Tokenizer;
  legal_model : Model;
  t5_tokenizer : T5Tok;
  t5_model : T5Model;
  qa_pipeline : QAPipeline;
  nlp : Nlp
}.

Definition legal_bert : string := "nlpaueb/legal-bert-base-uncased".
Definition bert_base : string := "bert-base-uncased".

(** The [try] of [load_models] with its [except Exception]: Legal-BERT, or
    BERT-base when loading Legal-BERT raised. *)
Definition load_bert : Outcome (Tokenizer * Model) :=
  match (tokenizer ← AutoTokenizer legal_bert;
         model ← AutoModel legal_bert;
         Ok (tokenizer, model)) with
  | Ok loaded => Ok loaded
  | Raise _ =>
      tokenizer ← AutoTokenizer bert_base;
      model ← AutoModel bert_base;
      Ok (tokenizer, model)
  end.

(** [__init__]: [load_models] and then [setup_nlp_pipeline], whose
    [except OSError] prints a hint and raises the exception again. *)
Definition init : Outcome Loaded :=
  bert ← load_bert;
  t5_tok ← T5Tokenizer "t5-small";
  t5_mod ← T5ForConditionalGeneration "t5-small";
  qa ← pipeline "question-answering" "distilbert-base-cased-distilled-squad";
  spacy_nlp ← spacy_load "en_core_web_sm";
  Ok {| legal_tokenizer := bert.1; legal_model := bert.2;
        t5_tokenizer := t5_tok; t5_model := t5_mod;
        qa_pipeline := qa; nlp := spacy_nlp |}.
End Loading.
End ProcessorInit.

(* ===================================================================== *)
(** * pdf_processor.py *)
(* ===================================================================== *)

Definition bytes : Type := list Byte.byte.

(** [str(e)].  What [str] gives for an [HTTPException] depends on the
    installed Starlette, so it is left open. *)
Definition exn_str (http_str : Z → string → string) (e : exn) : string :=
  match e with
  | HTTPException status_code detail => http_str status_code detail
  | PyException _ message => message
  end.

Module PDFProcessor.
Section Methods.
(** [PdfReader(pdf_file).pages], each page with what its
    [extract_text()] does. *)
Variable PdfReader : bytes → Outcome (list (Outcome string)).
Variable http_str : Z → string → string.

(** The loop [text += page.extract_text() + "\n"]. *)
Fixpoint pages_text (pages : list (Outcome string)) (text : string)
    : Outcome string :=
  match pages with
  | [] => Ok text
  | page :: pages' =>
      page_text ← page;
      pages_text pages' (text +:+ (page_text +:+ String "010"%char ""))
  end.

(** [extract_text_from_pdf] *)
Definition extract_text_from_pdf (pdf_file : bytes) : Outcome string :=
  match (pages ← PdfReader pdf_file;
         text ← pages_text pages "";
         Ok (strip text)) with
  | Ok text => Ok text
  | Raise e =>
      Raise (PyException "Exception"
               ("Failed to process PDF file: " +:+ exn_str http_str e))
  end.
End Methods.
End PDFProcessor.

(* ===================================================================== *)
(** * simple_api.py *)
(* ===================================================================== *)

Module Api.

(** A value of [processing_status]: a dict with the key ["status"] and,
    depending on the writer, ["progress"], ["results"] and ["error"]. *)
Record StatusEntry := {
  status : string;
  progress : option Z;
  results : option Processor.AnalysisResult;
  error : option string
}.

(** What the model records besides the state: every assignment to
    [processing_status] and every call of [processor.analyze_document]. *)
Inductive event : Type :=
| SetStatus (task_id : string) (entry : StatusEntry)
| CallAnalyze (text : string).

(** The state of the server process: the dict [processing_status]; the
    number of [uuid.uuid4()] calls made so far; the calls of
    [analyze_pdf_document] suspended at [await file.read()], each with its
    task id and with what the read will give; the background tasks added and
    not yet run; and the record of events, oldest first. *)
Record World := {
  processing_status : gmap string StatusEntry;
  uuid_calls : nat;
  awaiting_read : list (string * Outcome bytes);
  background_tasks : list (string * bytes);
  log : list event
}.

Definition M (A : Type) : Type := World → Outcome A * World.

#[global] Instance M_ret : MRet M := λ A a w, (Ok a, w).
#[global] Instance M_bind : MBind M := λ A B k m w,
  match m w with
  | (Ok a, w') => k a w'
  | (Raise e, w') => (Raise e, w')
  end.

Definition raise {A} (e : exn) : M A := λ w, (Raise e, w).

Definition lift {A} (o : Outcome A) : M A := λ w, (o, w).

(** [try: body except Exception as e: handler] *)
Definition try_except {A} (body : M A) (handler : exn → M A) : M A := λ w,
  match body w with
  | (Ok a, w') => (Ok a, w')
  | (Raise e, w') => handler e w'
  end.

(** [processing_status[task_id] = entry] *)
Definition set_status (task_id : string) (entry : StatusEntry) : M unit := λ w,
  (Ok (),
   {| processing_status := <[task_id := entry]> (processing_status w);
      uuid_calls := uuid_calls w;
      awaiting_read := awaiting_read w;
      background_tasks := background_tasks w;
      log := log w ++ [SetStatus task_id entry] |}).

(** [background_tasks.add_task(process_pdf_background, task_id, pdf_content)] *)
Definition add_task (task_id : string) (pdf_content : bytes) : M unit := λ w,
  (Ok (),
   {| processing_status := processing_status w;
      uuid_calls := uuid_calls w;
      awaiting_read := awaiting_read w;
      background_tasks := background_tasks w ++ [(task_id, pdf_content)];
      log := log w |}).

Definition record_call (text : string) : M unit := λ w,
  (Ok (),
   {| processing_status := processing_status w;
      uuid_calls := uuid_calls w;
      awaiting_read := awaiting_read w;
      background_tasks := background_tasks w;
      log := log w ++ [CallAnalyze text] |}).

Record DocumentRequest := { text : string }.

(** An uploaded file: its name, and what [await file.read()] gives. *)
Record UploadFile := {
  filename : option string;
  read : Outcome bytes
}.

(** The JSON answer of [/analyze-pdf]. *)
Record Submitted := { task_id : string; submitted_status : string }.

Definition entry_starting : StatusEntry :=
  {| status := "starting"; progress := Some 0%Z; results := None; error := None |}.
Definition entry_extracting_text : StatusEntry :=
  {| status := "extracting_text"; progress := Some 10%Z; results := None;
     error := None |}.
Definition entry_analyzing : StatusEntry :=
  {| status := "analyzing"; progress := Some 50%Z; results := None; error := None |}.
Definition entry_completed (r : Processor.AnalysisResult) : StatusEntry :=
  {| status := "completed"; progress := Some 100%Z; results := Some r;
     error := None |}.
Definition entry_error (msg : string) : StatusEntry :=
  {| status := "error"; progress := None; results := None; error := Some msg |}.

Section Handlers.
(** The module-level [processor] and the clock it reads. *)
Variable processor : Processor.LegalDocumentProcessor.
Variable now : string.
Variable PdfReader : bytes → Outcome (list (Outcome string)).
(** The value of the [n]-th call of [str(uuid.uuid4())]. *)
Variable uuid_gen : nat → string.
Variable http_str : Z → string → string.

Definition uuid4 : M string := λ w,
  (Ok (uuid_gen (uuid_calls w)),
   {| processing_status := processing_status w;
      uuid_calls := S (uuid_calls w);
      awaiting_read := awaiting_read w;
      background_tasks := background_tasks w;
      log := log w |}).

(** [processor.analyze_document(text)] *)
Definition call_analyze (text : string) : M Processor.AnalysisResult :=
  record_call text;;
  lift (Processor.analyze_document processor now text).

(** The handler [except Exception as e: raise HTTPException(500, str(e))]
    that both POST handlers end with. *)
Definition reraise_500 {A} (e : exn) : M A :=
  raise (HTTPException 500 (exn_str http_str e)).

(** [analyze_document], the handler of [POST /analyze] *)
Definition analyze_document (request : DocumentRequest)
    : M Processor.AnalysisResult :=
  try_except
    ((if str_falsy (text request)
      then raise (HTTPException 400 "No document content provided")
      else mret ());;
     results ← call_analyze (text request);
     mret results)
    reraise_500.

(** [process_pdf_background].  Its body has no [await], so the event loop
    runs it from start to end without running anything else. *)
Definition process_pdf_background (task_id : string) (pdf_content : bytes)
    : M unit :=
  try_except
    (set_status task_id entry_extracting_text;;
     text ← lift (PDFProcessor.extract_text_from_pdf PdfReader http_str
                    pdf_content);
     if str_falsy (strip text)
     then set_status task_id (entry_error "Could not extract text from PDF")
     else
       set_status task_id entry_analyzing;;
       results ← call_analyze text;
       set_status task_id (entry_completed results))
    (λ e, set_status task_id (entry_error (exn_str http_str e))).

(** [file.filename.lower().endswith('.pdf')] *)
Definition filename_is_pdf (file : UploadFile) : M bool :=
  match filename file with
  | Some name => mret (endswith ".pdf" (str_lower name))
  | None =>
      raise (PyException "AttributeError"
               "'NoneType' object has no attribute 'lower'")
  end.

(** The body of [analyze_pdf_document] up to [await file.read()], where the
    event loop may run other handlers and tasks: it gives the task id. *)
Definition analyze_pdf_document_until_read (file : UploadFile) : M string :=
  is_pdf ← filename_is_pdf file;
  (if negb is_pdf
   then raise (HTTPException 400 "File must be a PDF")
   else mret ());;
  task_id ← uuid4;
  set_status task_id entry_starting;;
  mret task_id.

(** The body of [analyze_pdf_document] from the value of [await file.read()]
    on. *)
Definition analyze_pdf_document_after_read (task_id : string)
    (read_result : Outcome bytes) : M Submitted :=
  pdf_content ← lift read_result;
  add_task task_id pdf_content;;
  mret {| task_id := task_id; submitted_status := "processing" |}.

(** [analyze_pdf_document], the handler of [POST /analyze-pdf], when nothing
    else runs while it waits for the read. *)
Definition analyze_pdf_document (file : UploadFile) : M Submitted :=
  try_except
    (task_id ← analyze_pdf_document_until_read file;
     analyze_pdf_document_after_read task_id (read file))
    reraise_500.

(** [get_processing_status], the handler of [GET /status/{task_id}] *)
Definition get_processing_status (task_id : string) : M StatusEntry := λ w,
  match processing_status w !! task_id with
  | None => (Raise (HTTPException 404 "Task not found"), w)
  | Some status => (Ok status, w)
  end.

(** ** The server as a transition system *)

Definition initial : World :=
  {| processing_status := ∅; uuid_calls := 0; awaiting_read := [];
     background_tasks := []; log := [] |}.

Definition with_awaiting_read (w : World) (calls : list (string * Outcome bytes))
    : World :=
  {| processing_status := processing_status w;
     uuid_calls := uuid_calls w;
     awaiting_read := calls;
     background_tasks := background_tasks w;
     log := log w |}.

Definition with_background_tasks (w : World) (tasks : list (string * bytes))
    : World :=
  {| processing_status := processing_status w;
     uuid_calls := uuid_calls w;
     awaiting_read := awaiting_read w;
     background_tasks := tasks;
     log := log w |}.

(** A call of [analyze_pdf_document] run until it is answered with an error
    or suspended at the read. *)
Definition analyze_pdf_document_suspend (file : UploadFile) (w : World) : World :=
  match analyze_pdf_document_until_read file w with
  | (Ok task_id, w') =>
      with_awaiting_read w' (awaiting_read w' ++ [(task_id, read file)])
  | (Raise e, w') => (reraise_500 (A := Submitted) e w').2
  end.

(** The same call resumed with the value of the read, to its answer. *)
Definition analyze_pdf_document_resume (task_id : string)
    (read_result : Outcome bytes) : M Submitted :=
  try_except (analyze_pdf_document_after_read task_id read_result) reraise_500.

(** One thing the event loop does: serve a request to [/analyze] or
    [/status]; run a request to [/analyze-pdf] up to the read; resume one
    that waits for its read; or run a background task that was added and
    has not run yet. *)
Inductive step : World → World → Prop :=
| step_analyze request w :
    step w (analyze_document request w).2
| step_status task_id w :
    step w (get_processing_status task_id w).2
| step_analyze_pdf file w :
    step w (analyze_pdf_document_suspend file w)
| step_read task_id read_result before after w :
    awaiting_read w = before ++ (task_id, read_result) :: after →
    step w (analyze_pdf_document_resume task_id read_result
              (with_awaiting_read w (before ++ after))).2
| step_background task_id pdf_content before after w :
    background_tasks w = before ++ (task_id, pdf_content) :: after →
    step w (process_pdf_background task_id pdf_content
              (with_background_tasks w (before ++ after))).2.

Inductive reachable : World → Prop :=
| reachable_initial : reachable initial
| reachable_step w w' : reachable w → step w w' → reachable w'.
End Handlers.

(** ** The order of the job states *)

Definition status_rank (s : string) : option nat :=
  if decide (s = "starting") then Some 0
  else if decide (s = "extracting_text") then Some 1
  else if decide (s = "analyzing") then Some 2
  else if decide (s = "completed") then Some 3
  else if decide (s = "error") then Some 3
  else None.

(** [later e1 e2]: the state of [e2] comes strictly after that of [e1]. *)
Definition later (e1 e2 : StatusEntry) : Prop :=
  ∃ r1 r2, status_rank (status e1) = Some r1 ∧
           status_rank (status e2) = Some r2 ∧ r1 < r2.

Definition terminal (e : StatusEntry) : Prop :=
  status e = "completed" ∨ status e = "error".

(** The shape the specification gives to the entry of each state. *)
Definition entry_shape (e : StatusEntry) : Prop :=
  e = entry_starting ∨ e = entry_extracting_text ∨ e = entry_analyzing ∨
  (∃ r, e = entry_completed r) ∨ (∃ msg, e = entry_error msg).

(** The entries written for one job, oldest first. *)
Fixpoint history (task_id : string) (l : list event) : list StatusEntry :=
  match l with
  | [] => []
  | SetStatus k e :: l' =>
      if decide (k = task_id) then e :: history task_id l' else history task_id l'
  | CallAnalyze _ :: l' => history task_id l'
  end.

Definition analyze_calls (l : list event) : list string :=
  omap (λ ev, match ev with CallAnalyze t => Some t | SetStatus _ _ => None end) l.

(** ** Runs and histories *)

(** The events of one run of the background task and the entry it leaves:
    the extraction failed or gave a blank text; or the analysis returned; or
    the analysis raised. *)
Inductive background_run (task_id : string) : list event → StatusEntry → Prop :=
| run_no_text msg :
    background_run task_id
      [ SetStatus task_id entry_extracting_text;
        SetStatus task_id (entry_error msg) ]
      (entry_error msg)
| run_completed text r :
    background_run task_id
      [ SetStatus task_id entry_extracting_text;
        SetStatus task_id entry_analyzing;
        CallAnalyze text;
        SetStatus task_id (entry_completed r) ]
      (entry_completed r)
| run_analysis_failed text msg :
    background_run task_id
      [ SetStatus task_id entry_extracting_text;
        SetStatus task_id entry_analyzing;
        CallAnalyze text;
        SetStatus task_id (entry_error msg) ]
      (entry_error msg).

Definition after_run (w : World) (task_id : string) (events : list event)
    (final : StatusEntry) : World :=
  {| processing_status := <[task_id := final]> (processing_status w);
     uuid_calls := uuid_calls w;
     awaiting_read := awaiting_read w;
     background_tasks := background_tasks w;
     log := log w ++ events |}.

Definition with_events (w : World) (events : list event) : World :=
  {| processing_status := processing_status w;
     uuid_calls := uuid_calls w;
     awaiting_read := awaiting_read w;
     background_tasks := background_tasks w;
     log := log w ++ events |}.

(** The histories a job can have: none yet; submitted; and the three
    complete ones. *)
Inductive job_history : list StatusEntry → Prop :=
| job_unknown : job_history []
| job_submitted : job_history [entry_starting]
| job_no_text msg :
    job_history [entry_starting; entry_extracting_text; entry_error msg]
| job_completed r :
    job_history
      [entry_starting; entry_extracting_text; entry_analyzing; entry_completed r]
| job_analysis_failed msg :
    job_history
      [entry_starting; entry_extracting_text; entry_analyzing; entry_error msg].

(** The jobs submitted and not yet run: those whose submission waits for
    its read, and those whose background task waits to run. *)
Definition pending (w : World) : list string :=
  (awaiting_read w).*1 ++ (background_tasks w).*1.

Section Invariant.
Variable uuid_gen : nat → string.

(** The state in which a submission has drawn the next id and written the
    entry of the new job. *)
Definition submitted (w : World) : World :=
  {| processing_status :=
       <[uuid_gen (uuid_calls w) := entry_starting]> (processing_status w);
     uuid_calls := S (uuid_calls w);
     awaiting_read := awaiting_read w;
     background_tasks := background_tasks w;
     log := log w ++ [SetStatus (uuid_gen (uuid_calls w)) entry_starting] |}.

Record invariant (w : World) : Prop := {
  inv_history : ∀ k, job_history (history k (log w));
  inv_status : ∀ k, processing_status w !! k = last (history k (log w));
  inv_pending : ∀ k, k ∈ pending w → history k (log w) = [entry_starting];
  inv_pending_NoDup : NoDup (pending w);
  inv_issued : ∀ k, history k (log w) ≠ [] →
                    ∃ i, i < uuid_calls w ∧ k = uuid_gen i
}.
End Invariant.

Arguments inv_history {uuid_gen} w _ k.
Arguments inv_status {uuid_gen} w _ k.
Arguments inv_pending {uuid_gen} w _ k _.
Arguments inv_pending_NoDup {uuid_gen} w _.
Arguments inv_issued {uuid_gen} w _ k _.

End Api.

(* ===================================================================== *)
(** * The vocabulary of the specification *)
(* ===================================================================== *)

(** A keyword occurs in a text case-insensitively when some substring of the
    text equals it up to the case of letters. *)
Definition occurs_ci (keyword text : string) : Prop :=
  ∃ pre mid post : string,
    text = pre +:+ mid +:+ post ∧ str_lower mid = str_lower keyword.

(** [keyword_hits text keywords n]: [n] of the keywords occur in the text,
    each keyword counting once however often it occurs. *)
Inductive keyword_hits (text : string) : list string → nat → Prop :=
| hits_nil : keyword_hits text [] 0
| hits_present keyword keywords n :
    occurs_ci keyword text → keyword_hits text keywords n →
    keyword_hits text (keyword :: keywords) (S n)
| hits_absent keyword keywords n :
    ¬ occurs_ci keyword text → keyword_hits text keywords n →
    keyword_hits text (keyword :: keywords) n.

(** A string of white space only; the empty string is one. *)
Definition whitespace_only (s : string) : Prop :=
  Forall (λ c, isspace c = true) (list_ascii_of_string s).

Section Vocabulary.
Import Processor.

(** The score the loop computes for one type. *)
Definition indicator_hits (text_lower : string) (indicators : list string) : nat :=
  length (filter (λ indicator, str_contains indicator text_lower = true) indicators).

Definition ratio (a b : nat) : Q :=
  (inject_Z (Z.of_nat a) / inject_Z (Z.of_nat b))%Q.

(** The entry of [scores] for one item of the taxonomy. *)
Definition scored (text_lower : string) (item : string * list string) : string * Q :=
  (item.1, ratio (indicator_hits text_lower item.2) (length item.2)).

Definition ner_categories : list string := ["PERSON"; "ORG"; "DATE"; "MONEY"; "GPE"].

(** The texts of the spans that carry a label, in the order of [doc.ents]. *)
Definition spans_with (category : string) (ents : list Span) : list string :=
  span_text <$> filter (λ ent, label_ ent = category) ents.

(** The clause a question contributes, decided by its own answer alone. *)
Definition clause_of (self : LegalDocumentProcessor) (context question : string)
    : option Clause :=
  match qa_pipeline self question context with
  | Ok result =>
      if float_gt (score result) float_0_1
      then Some {| text := answer result; confidence := score result |}
      else None
  | Raise _ => None
  end.

(** ** Collaborators for the examples *)

(** A processor whose recognizer reports the same person twice. *)
Definition twice_reported : LegalDocumentProcessor :=
  {| nlp := λ _, Ok [ {| label_ := "PERSON"; span_text := "John Smith" |};
                      {| label_ := "PERSON"; span_text := "John Smith" |} ];
     qa_pipeline := λ _ _, Raise (PyException "RuntimeError" "no model");
     t5 := λ _ _, Ok "" |}.

(** A pipeline that answers the salary question and raises on the others. *)
Definition salary_only : LegalDocumentProcessor :=
  {| nlp := λ _, Ok [];
     qa_pipeline := λ question _,
       if decide (question = "What is the salary?")
       then Ok {| answer := "$120,000"; score := 9 # 10 |}
       else Raise (PyException "RuntimeError" "inference failed");
     t5 := λ _ _, Ok "summary" |}.

Definition rent_text : string := "$1,500 per month... Security Deposit: $1,500".

(** ** Shapes of strings *)

Definition starts_with_space (s : string) : Prop :=
  ∃ c rest, s = String c rest ∧ isspace c = true.

Definition ends_with_space (s : string) : Prop :=
  ∃ c init, s = init +:+ String c "" ∧ isspace c = true.

(** Neither the first nor the last character is white space. *)
Definition trimmed (s : string) : Prop :=
  ¬ starts_with_space s ∧ ¬ ends_with_space s.

(** The only white space is the space character, and never two in a row. *)
Definition single_spaced (s : string) : Prop :=
  (∀ pre c post, s = pre +:+ String c post → isspace c = true → c = " "%char) ∧
  (∀ pre post, s ≠ pre +:+ "  " +:+ post).

(** Words of characters that are not white space, one space between two
    words.  [tidy after_space s]: [s] continues such a text; after a space a
    word has to follow. *)
Inductive tidy : bool → string → Prop :=
| tidy_end : tidy false ""
| tidy_char after_space c s :
    isspace c = false → tidy false s → tidy after_space (String c s)
| tidy_space s : tidy true s → tidy false (String " " s).

Definition normalized (s : string) : Prop := s = "" ∨ tidy true s.

(** The texts of the pages of a PDF, each followed by a line feed. *)
Definition join_pages (texts : list string) : string :=
  foldr (λ page_text rest, page_text +:+ String "010"%char "" +:+ rest) "" texts.

(** The exception [extract_text_from_pdf] raises for a failure [cause]. *)
Definition pdf_failure (http_str : Z → string → string) (cause : exn) : exn :=
  PyException "Exception"
    ("Failed to process PDF file: " +:+ exn_str http_str cause).
End Vocabulary.

(* ===================================================================== *)
(** * A server with concrete collaborators *)
(* ===================================================================== *)

Section ExampleServer.
Import Api.

(** Ids are the decimal numerals of the call count; every PDF has one blank
    page. *)
Definition example_uuid : nat → string := pretty.
Definition example_reader : bytes → Outcome (list (Outcome string)) :=
  λ _, Ok [Ok "  "].
Definition example_http_str : Z → string → string := λ _ detail, detail.
Definition example_now : string := "2024-01-01T00:00:00".

Definition example_step : World → World → Prop :=
  Api.step salary_only example_now example_reader example_uuid example_http_str.
Definition example_reachable : World → Prop :=
  Api.reachable salary_only example_now example_reader example_uuid
    example_http_str.

Definition upload (name : string) : UploadFile :=
  {| filename := Some name; read := Ok [] |}.

(** The states after a submission was accepted, after its read returned,
    and after its background task ran. *)
Definition example_accepted : World :=
  analyze_pdf_document_suspend example_uuid example_http_str (upload "Lease.PDF")
    initial.
Definition example_submitted : World :=
  (analyze_pdf_document_resume example_http_str "0" (Ok [])
     (with_awaiting_read example_accepted [])).2.
Definition example_finished : World :=
  (process_pdf_background salary_only example_now example_reader
     example_http_str "0" [] (with_background_tasks example_submitted [])).2.

(** A second server, whose PDFs have one page of lease text, with a
    processor that analyses it and with one whose summarizer fails. *)
Definition lease_page : string := "Lease of the premises".
Definition lease_reader : bytes → Outcome (list (Outcome string)) :=
  λ _, Ok [Ok lease_page].

Definition no_summary : Processor.LegalDocumentProcessor :=
  {| Processor.nlp := λ _, Ok [];
     Processor.qa_pipeline := λ _ _, Raise (PyException "RuntimeError" "no model");
     Processor.t5 := λ _ _, Raise (PyException "RuntimeError" "out of memory") |}.

Definition lease_result : Processor.AnalysisResult :=
  match Processor.analyze_document salary_only example_now lease_page with
  | Ok r => r
  | Raise _ =>
      {| Processor.document_info :=
           {| Processor.info_type := ""; Processor.info_confidence := 0;
              Processor.info_length := 0; Processor.processed_at := "" |};
         Processor.entities := ∅; Processor.key_clauses := ∅;
         Processor.summary := ""; Processor.classification_scores := [] |}
  end.

Definition lease_reachable : World → Prop :=
  Api.reachable salary_only example_now lease_reader example_uuid example_http_str.
Definition lease_step : World → World → Prop :=
  Api.step salary_only example_now lease_reader example_uuid example_http_str.
Definition failing_reachable : World → Prop :=
  Api.reachable no_summary example_now lease_reader example_uuid example_http_str.
Definition failing_step : World → World → Prop :=
  Api.step no_summary example_now lease_reader example_uuid example_http_str.

(** An upload whose read fails, and the state in which its submission waits
    for that read. *)
Definition broken_upload : UploadFile :=
  {| filename := Some "lease.pdf";
     read := Raise (PyException "OSError" "connection reset") |}.
Definition example_waiting : World :=
  analyze_pdf_document_suspend example_uuid example_http_str broken_upload initial.

(** Loaders that return the name of what they load; the Legal-BERT model
    cannot be loaded. *)
Definition example_tokenizer (name : string) : Outcome string := Ok name.
Definition example_model (name : string) : Outcome string :=
  if decide (name = ProcessorInit.legal_bert)
  then Raise (PyException "OSError" "checkpoint not found")
  else Ok name.
Definition example_pipeline (task model : string) : Outcome string := Ok model.

Definition example_loaded : ProcessorInit.Loaded :=
  {| ProcessorInit.legal_tokenizer := ProcessorInit.bert_base;
     ProcessorInit.legal_model := ProcessorInit.bert_base;
     ProcessorInit.t5_tokenizer := "t5-small"; ProcessorInit.t5_model := "t5-small";
     ProcessorInit.qa_pipeline := "distilbert-base-cased-distilled-squad";
     ProcessorInit.nlp := "en_core_web_sm" |}.
End ExampleServer.

(* ===================================================================== *)
(** * The embedding on concrete inputs *)
(* ===================================================================== *)

Section Checks.
Import Processor Api.

(** Scenario 1 of the specification: the four contract indicators and no
    other keyword give "contract" with confidence 4/4. *)
Example classify_contract :
  classify_document_type "This AGREEMENT: whereas each Party makes a covenant"
  = Ok {| document_type := "contract";
          cls_confidence := 4 # 4;
          all_scores := [ ("contract", 4 # 4); ("license", 0 # 4);
                          ("lease", 0 # 5); ("employment", 0 # 4);
                          ("nda", 0 # 3) ] |}.
Proof. reflexivity. Qed.

(** Equal scores: the type declared first is returned. *)
Example classify_tie :
  document_type <$>
    match classify_document_type "the licensor grants the licensee a license; each party to this agreement, whereas, covenant" with
    | Ok r => Some r
    | Raise _ => None
    end
  = Some "contract".
Proof. reflexivity. Qed.

Example classify_empty :
  document_type <$>
    match classify_document_type "" with Ok r => Some r | Raise _ => None end
  = Some "contract".
Proof. reflexivity. Qed.

Example classify_lease :
  document_type <$>
    match classify_document_type "Lessor and lessee agree on the rent of the premises" with
    | Ok r => Some r
    | Raise _ => None
    end
  = Some "lease".
Proof. reflexivity. Qed.

Example findall_amounts :
  findall money_match "$ $, $1.5$2.50 $3.999 $$4,,.12.34 5$"
  = ["$,"; "$1"; "$2.50"; "$3.99"; "$4,,.12"].
Proof. reflexivity. Qed.

Example clause_keys :
  clause_key <$> questions_for (Some "contract")
  = ["the effective date"; "Who are the parties"; "the payment terms";
     "the governing law"].
Proof. reflexivity. Qed.

Example replace_overlapping : replace "aa" "b" "aaaaa" = "bba".
Proof. reflexivity. Qed.

Example preprocess_spaces :
  preprocess_text (String "009" (" a  " +:+ String "010" (String "009" "b c  ")))
  = "a b c".
Proof. reflexivity. Qed.

Example split_words :
  split (String "010" " one  two" +:+ String "009" "three ")
  = ["one"; "two"; "three"].
Proof. reflexivity. Qed.

Example endswith_pdf :
  endswith ".pdf" (str_lower "Lease.PDF") = true ∧
  endswith ".pdf" (str_lower "lease.pdf.txt") = false.
Proof. split; reflexivity. Qed.

(** The example server: the job "0" after its submission and after its
    run on a PDF without text. *)
Example example_submitted_state :
  processing_status example_submitted !! "0" = Some entry_starting ∧
  background_tasks example_submitted = [("0", [])] ∧
  awaiting_read example_submitted = [].
Proof. split; [by vm_compute|]. split; reflexivity. Qed.

Example example_finished_state :
  processing_status example_finished !! "0"
    = Some (entry_error "Could not extract text from PDF") ∧
  log example_finished =
    [ SetStatus "0" entry_starting;
      SetStatus "0" entry_extracting_text;
      SetStatus "0" (entry_error "Could not extract text from PDF") ].
Proof. split; [by vm_compute|reflexivity]. Qed.
End Checks.

(* ===================================================================== *)
(** * Outcomes *)
(* ===================================================================== *)

Lemma bind_Ok {A B} (a : A) (k : A → Outcome B) : (Ok a ≫= k) = k a.
Proof. reflexivity. Qed.

Lemma bind_Raise {A B} (e : exn) (k : A → Outcome B) : (Raise e ≫= k) = Raise e.
Proof. reflexivity. Qed.

(* ===================================================================== *)
(** * Strings *)
(* ===================================================================== *)

Section StringFacts.
Implicit Types s t p : string.

Lemma app_String c s t : String c s +:+ t = String c (s +:+ t).
Proof. reflexivity. Qed.

Lemma app_empty_l s : "" +:+ s = s.
Proof. reflexivity. Qed.

Lemma app_empty_r s : s +:+ "" = s.
Proof. induction s as [|c s IH]; [done|]. by rewrite app_String, IH. Qed.

Lemma app_assoc_str s t p : (s +:+ t) +:+ p = s +:+ (t +:+ p).
Proof. induction s as [|c s IH]; [done|]. by rewrite !app_String, IH. Qed.

Lemma startswith_spec p s : startswith p s = true ↔ ∃ t, s = p +:+ t.
Proof.
  revert s. induction p as [|a p IH]; intros s; simpl.
  - split; [|done]. intros _. by exists s.
  - destruct s as [|b s].
    + split; [done|]. intros [t Ht]. discriminate Ht.
    + destruct (ascii_dec a b) as [->|Hab].
      * rewrite IH. split; intros [t Ht]; exists t.
        -- by rewrite app_String, Ht.
        -- rewrite app_String in Ht. by injection Ht.
      * split; [done|]. intros [t Ht]. rewrite app_String in Ht.
        injection Ht as Hb _. by destruct Hab.
Qed.

Lemma str_contains_spec p s :
  str_contains p s = true ↔ ∃ pre post, s = pre +:+ p +:+ post.
Proof.
  induction s as [|c s IH]; simpl.
  - rewrite orb_false_r, startswith_spec. split.
    + intros [t Ht]. by exists "", t.
    + intros [[|c pre] [post Hs]]; [by exists post|discriminate Hs].
  - rewrite orb_true_iff, startswith_spec, IH. split.
    + intros [[t Ht]|(pre & post & Hs)].
      * by exists "", t.
      * exists (String c pre), post. by rewrite app_String, Hs.
    + intros [[|c' pre] [post Hs]].
      * left. by exists post.
      * right. rewrite app_String in Hs. injection Hs as _ Hs. by exists pre, post.
Qed.

Lemma str_lower_app s t : str_lower (s +:+ t) = str_lower s +:+ str_lower t.
Proof. induction s as [|c s IH]; [done|]. simpl. by rewrite app_String, IH. Qed.

Lemma str_lower_split s p t :
  str_lower s = p +:+ t →
  ∃ s1 s2, s = s1 +:+ s2 ∧ str_lower s1 = p ∧ str_lower s2 = t.
Proof.
  revert s. induction p as [|a p IH]; intros s Hs.
  - by exists "", s.
  - destruct s as [|c s]; [discriminate Hs|].
    simpl in Hs. rewrite app_String in Hs. injection Hs as Hc Hs.
    destruct (IH _ Hs) as (s1 & s2 & -> & H1 & H2).
    exists (String c s1), s2. simpl. by rewrite Hc, H1.
Qed.

(** The test of the classifier, [keyword in text.lower()], is the
    case-insensitive occurrence of a keyword written in lower case. *)
Lemma contains_lower_occurs keyword text :
  str_lower keyword = keyword →
  str_contains keyword (str_lower text) = true ↔ occurs_ci keyword text.
Proof.
  intros Hkw. rewrite str_contains_spec. unfold occurs_ci. rewrite Hkw. split.
  - intros (pre & post & Hs).
    destruct (str_lower_split _ _ _ Hs) as (s1 & s23 & -> & _ & H23).
    destruct (str_lower_split _ _ _ H23) as (s2 & s3 & -> & H2 & _).
    by exists s1, s2, s3.
  - intros (pre & mid & post & -> & Hmid).
    exists (str_lower pre), (str_lower post).
    by rewrite !str_lower_app, Hmid.
Qed.
End StringFacts.

(* ===================================================================== *)
(** * The classifier *)
(* ===================================================================== *)

Section Classifier.
Import Processor.

Lemma ratio_bounds a b : a ≤ b → 0 < b → (0 <= ratio a b)%Q ∧ (ratio a b <= 1)%Q.
Proof.
  intros Hab Hb. unfold ratio.
  assert (0 < inject_Z (Z.of_nat b))%Q as Hpos.
  { change 0%Q with (inject_Z 0). rewrite <- Zlt_Qlt. lia. }
  split.
  - apply Qle_shift_div_l; [done|]. rewrite Qmult_0_l.
    change 0%Q with (inject_Z 0). rewrite <- Zle_Qle. lia.
  - apply Qle_shift_div_r; [done|]. rewrite Qmult_1_l.
    rewrite <- Zle_Qle. lia.
Qed.

Lemma indicator_hits_le text_lower indicators :
  indicator_hits text_lower indicators ≤ length indicators.
Proof. apply length_filter. Qed.

Lemma indicator_hits_keyword_hits text indicators :
  Forall (λ kw, str_lower kw = kw) indicators →
  keyword_hits text indicators (indicator_hits (str_lower text) indicators).
Proof.
  unfold indicator_hits. induction 1 as [|kw kws Hkw _ IH]; [constructor|].
  rewrite filter_cons. case_decide as Hc.
  - simpl. apply hits_present; [|done]. by apply contains_lower_occurs.
  - apply hits_absent; [|done]. by rewrite <- contains_lower_occurs.
Qed.

Lemma dict_set_fresh {V} (d : list (string * V)) k v :
  k ∉ d.*1 → dict_set d k v = d ++ [(k, v)].
Proof.
  induction d as [|[k' v'] d IH]; [done|]. simpl. intros Hk.
  apply not_elem_of_cons in Hk as [Hne Hk].
  case_decide; [congruence|]. by rewrite IH.
Qed.

Lemma dict_get_lookup {V} (d : list (string * V)) i k v :
  NoDup d.*1 → d !! i = Some (k, v) → dict_get d k = Some v.
Proof.
  revert i. induction d as [|[k' v'] d IH]; intros i Hnd Hi; [done|].
  simpl in *. apply NoDup_cons in Hnd as [Hk' Hnd].
  destruct i as [|i]; simpl in Hi.
  - injection Hi as -> ->. by case_decide.
  - case_decide as Heq; [|by eapply IH].
    subst k'. destruct Hk'. apply list_elem_of_fmap. exists (k, v).
    split; [done|]. by eapply list_elem_of_lookup_2.
Qed.

Lemma score_loop_spec text_lower items scores :
  Forall (λ item, item.2 ≠ []) items →
  NoDup (scores.*1 ++ items.*1) →
  score_loop text_lower items scores = Ok (scores ++ (scored text_lower <$> items)).
Proof.
  revert scores. induction items as [|[doc_type indicators] items IH];
    intros scores Hne Hnd; simpl.
  - by rewrite app_nil_r.
  - apply Forall_cons in Hne as [Hind Hne]. simpl in Hind.
    destruct indicators as [|kw kws]; [done|].
    unfold truediv. cbn [length mbind outcome_bind obind].
    rewrite dict_set_fresh.
    + rewrite IH; [|done|].
      * by rewrite <- (assoc_L (++)).
      * by rewrite fmap_app, <- (assoc_L (++)).
    + simpl in Hnd. apply NoDup_app in Hnd as (_ & Hdisj & _).
      intros Hin. apply (Hdisj _ Hin). left.
Qed.

Lemma max_from_spec best items :
  ∃ i s, (best :: items) !! i = Some (max_from best items, s) ∧
    ∀ j doc_type s', (best :: items) !! j = Some (doc_type, s') →
      (s' <= s)%Q ∧ ((j < i)%nat → (s' < s)%Q).
Proof.
  revert best. induction items as [|it items IH]; intros [kb sb]; simpl.
  - exists 0, sb. split; [done|]. intros [|j] t s' Hj; [|done].
    injection Hj as _ ->. split; [apply Qle_refl|lia].
  - unfold float_gt. destruct (Qle_bool it.2 sb) eqn:Hle; simpl.
    + apply Qle_bool_iff in Hle.
      destruct (IH (kb, sb)) as (i & s & Hi & Hmax).
      destruct i as [|i].
      * exists 0, s. split; [done|]. simpl in Hi. injection Hi as Hk ->.
        intros [|[|j]] t s' Hj.
        -- injection Hj as _ ->. split; [apply Qle_refl|lia].
        -- simpl in Hj. destruct it as [ki si]. injection Hj as _ ->.
           split; [done|lia].
        -- split; [|lia]. by apply (Hmax (S j) t s').
      * exists (S (S i)), s. split; [done|].
        destruct (Hmax 0 kb sb eq_refl) as [_ Hlt].
        specialize (Hlt ltac:(lia)).
        intros [|[|j]] t s' Hj.
        -- injection Hj as _ ->. split; [by apply Qlt_le_weak|done].
        -- simpl in Hj. destruct it as [ki si]. injection Hj as _ ->.
           simpl in Hle. split; [|intros _]; eauto using Qle_lt_trans, Qlt_le_weak.
        -- destruct (Hmax (S j) t s' Hj) as [? Hlt']. split; [done|].
           intros ?. apply Hlt'. lia.
    + assert (sb < it.2)%Q as Hlt.
      { apply Qnot_le_lt. intros Hc. apply Qle_bool_iff in Hc. congruence. }
      destruct (IH it) as (i & s & Hi & Hmax).
      exists (S i), s. split; [done|].
      destruct it as [ki si].
      destruct (Hmax 0 ki si eq_refl) as [Hsi _].
      intros [|j] t s' Hj.
      * injection Hj as _ ->. simpl in Hlt.
        split; [|intros _]; eauto using Qlt_le_trans, Qlt_le_weak.
      * destruct (Hmax j t s' Hj) as [? Hlt']. split; [done|].
        intros ?. apply Hlt'. lia.
Qed.
End Classifier.

Section ClassifierClaim.
Import Processor.

Lemma doc_indicators_keys : NoDup doc_indicators.*1.
Proof. apply (bool_decide_unpack _). by vm_compute. Qed.

Lemma doc_indicators_wf :
  Forall (λ item : string * list string,
            item.2 ≠ [] ∧ NoDup item.2 ∧ Forall (λ kw, str_lower kw = kw) item.2)
         doc_indicators.
Proof. apply (bool_decide_unpack _). by vm_compute. Qed.

Lemma scored_keys text_lower items : (scored text_lower <$> items).*1 = items.*1.
Proof. rewrite <- list_fmap_compose. by apply list_fmap_ext. Qed.

Lemma max_key_spec (d : list (string * Q)) :
  d ≠ [] →
  ∃ k i s, max_key d = Ok k ∧ d !! i = Some (k, s) ∧
    ∀ j doc_type s', d !! j = Some (doc_type, s') →
      (s' <= s)%Q ∧ ((j < i)%nat → (s' < s)%Q).
Proof.
  destruct d as [|best items]; [done|]. intros _.
  destruct (max_from_spec best items) as (i & s & Hi & Hmax).
  by exists (max_from best items), i, s.
Qed.

(** What [classify_document_type] returns, in terms of the loop's scores. *)
Lemma classify_document_type_eq text :
  ∃ r i, classify_document_type text = Ok r ∧
    all_scores r = scored (str_lower text) <$> doc_indicators ∧
    all_scores r !! i = Some (document_type r, cls_confidence r) ∧
    ∀ j doc_type s, all_scores r !! j = Some (doc_type, s) →
      (s <= cls_confidence r)%Q ∧ ((j < i)%nat → (s < cls_confidence r)%Q).
Proof.
  unfold classify_document_type.
  rewrite score_loop_spec; first last.
  { apply doc_indicators_keys. }
  { eapply Forall_impl; [apply doc_indicators_wf|]. by intros ? [? _]. }
  rewrite bind_Ok, app_nil_l. set (scores := scored _ <$> _).
  destruct (max_key_spec scores) as (k & i & s & Hk & Hi & Hmax); [done|].
  rewrite Hk, bind_Ok. unfold dict_getitem.
  erewrite dict_get_lookup; [|
    unfold scores; rewrite scored_keys; apply doc_indicators_keys | done].
  rewrite bind_Ok. eexists _, i. split; [done|]. by simpl.
Qed.

(** C1.  For every text the classifier returns, and: the score map has one
    entry per type of the taxonomy, in declaration order; the score of a
    type is the number of its keywords that occur case-insensitively in
    the text, each counted once, divided by the number of its keywords
    (which are pairwise distinct), and lies in [0,1]; the predicted type
    is an entry of maximal score, every entry declared before it has a
    strictly smaller score, and the confidence is the score of that
    entry. *)
Theorem classify_document_type_scores_argmax (text : string) :
  ∃ r, classify_document_type text = Ok r ∧
    (all_scores r).*1 = doc_indicators.*1 ∧
    (∀ i doc_type indicators,
       doc_indicators !! i = Some (doc_type, indicators) →
       NoDup indicators ∧
       ∃ hits s,
         keyword_hits text indicators hits ∧
         all_scores r !! i = Some (doc_type, s) ∧
         (s == inject_Z (Z.of_nat hits) / inject_Z (Z.of_nat (length indicators)))%Q ∧
         (0 <= s)%Q ∧ (s <= 1)%Q) ∧
    (∃ i, all_scores r !! i = Some (document_type r, cls_confidence r) ∧
       ∀ j doc_type s, all_scores r !! j = Some (doc_type, s) →
         (s <= cls_confidence r)%Q ∧ ((j < i)%nat → (s < cls_confidence r)%Q)).
Proof.
  destruct (classify_document_type_eq text) as (r & i & Hr & Hscores & Hi & Hmax).
  exists r. split; [done|]. split; [by rewrite Hscores, scored_keys|].
  split; [|by exists i].
  intros j doc_type indicators Hj.
  pose proof doc_indicators_wf as Hwf.
  rewrite Forall_lookup in Hwf. destruct (Hwf _ _ Hj) as (Hne & Hnd & Hlow).
  simpl in Hne, Hnd, Hlow. split; [done|].
  exists (indicator_hits (str_lower text) indicators),
         (ratio (indicator_hits (str_lower text) indicators) (length indicators)).
  split; [by apply indicator_hits_keyword_hits|].
  split; [by rewrite Hscores, list_lookup_fmap, Hj|].
  split; [reflexivity|].
  apply ratio_bounds; [apply indicator_hits_le|].
  destruct indicators; [done|simpl; lia].
Qed.
End ClassifierClaim.

(* ===================================================================== *)
(** * The entity extractor *)
(* ===================================================================== *)

Section Entities.
Import Processor.

Lemma add_entity_lookup entities ent category :
  add_entity entities ent !! category =
    (λ spans, spans ++ spans_with category [ent]) <$> entities !! category.
Proof.
  unfold add_entity, spans_with. rewrite filter_cons, filter_nil.
  destruct (entities !! label_ ent) as [spans|] eqn:Hl.
  - destruct (decide (label_ ent = category)) as [<-|Hne].
    + by rewrite lookup_insert_eq, Hl.
    + rewrite lookup_insert_ne by done.
      destruct (entities !! category); simpl; [|done]. by rewrite app_nil_r.
  - destruct (decide (label_ ent = category)) as [<-|Hne].
    + by rewrite Hl.
    + destruct (entities !! category); simpl; [|done]. by rewrite app_nil_r.
Qed.

Lemma fold_add_entity_lookup ents entities category :
  fold_left add_entity ents entities !! category =
    (λ spans, spans ++ spans_with category ents) <$> entities !! category.
Proof.
  revert entities. induction ents as [|ent ents IH]; intros entities; simpl.
  - destruct (entities !! category); simpl; [|done]. by rewrite app_nil_r.
  - rewrite IH, add_entity_lookup. destruct (entities !! category); simpl; [|done].
    f_equal. rewrite <- (assoc_L (++)). f_equal.
    unfold spans_with. rewrite (filter_cons _ ent ents).
    rewrite filter_cons, filter_nil. by case_decide.
Qed.

Lemma empty_entities_lookup category :
  category ∈ ner_categories → empty_entities !! category = Some [].
Proof.
  unfold ner_categories, empty_entities. rewrite !elem_of_cons, elem_of_nil.
  intros [->|[->|[->|[->|[->|[]]]]]]; by vm_compute.
Qed.

(** The extractor returns whenever the recognizer does, with every match of
    the amount pattern under 'monetary_amounts'. *)
Lemma extract_legal_entities_money self text ents :
  nlp self text = Ok ents →
  ∃ entities, extract_legal_entities self text = Ok entities ∧
    entities !! "monetary_amounts" = Some (findall money_match text).
Proof.
  intros Hnlp. unfold extract_legal_entities. rewrite Hnlp, bind_Ok.
  eexists. split; [done|]. by rewrite lookup_insert_eq.
Qed.

Lemma monetary_amounts_not_ner category :
  category ∈ ner_categories → "monetary_amounts" ≠ category.
Proof.
  intros Hc <-. revert Hc. unfold ner_categories.
  rewrite !elem_of_cons, elem_of_nil.
  intros [?|[?|[?|[?|[?|[]]]]]]; discriminate.
Qed.

(** C4, as stated, fails: a span the recognizer reports twice is stored
    twice under its category, and an amount written twice is stored twice
    under 'monetary_amounts'. *)
Lemma extract_legal_entities_keeps_duplicates :
  ∃ entities,
    extract_legal_entities twice_reported "John Smith paid $5; John Smith got $5"
      = Ok entities ∧
    entities !! "PERSON" = Some ["John Smith"; "John Smith"] ∧
    entities !! "monetary_amounts" = Some ["$5"; "$5"] ∧
    ¬ NoDup ["John Smith"; "John Smith"] ∧ ¬ NoDup ["$5"; "$5"].
Proof.
  eexists. split; [reflexivity|]. split; [by vm_compute|]. split; [by vm_compute|].
  split; intros Hnd; apply NoDup_cons in Hnd as [Hin _]; apply Hin; left.
Qed.

(** C4, amended.  For every text and every output of the recognizer, the
    sequence stored under each of the five categories is the texts of the
    reported spans of that label, in the order reported and with every
    repetition kept, and the sequence under 'monetary_amounts' is every
    match of the amount pattern from left to right, repetitions kept. *)
Theorem extract_legal_entities_keeps_every_span self text ents :
  nlp self text = Ok ents →
  ∃ entities, extract_legal_entities self text = Ok entities ∧
    (∀ category, category ∈ ner_categories →
       entities !! category =
         Some (span_text <$> filter (λ ent, label_ ent = category) ents)) ∧
    entities !! "monetary_amounts" = Some (findall money_match text).
Proof.
  intros Hnlp. unfold extract_legal_entities. rewrite Hnlp, bind_Ok.
  eexists. split; [done|]. split; [|by rewrite lookup_insert_eq].
  intros category Hc.
  rewrite lookup_insert_ne by (by apply monetary_amounts_not_ner).
  rewrite fold_add_entity_lookup, empty_entities_lookup by done.
  reflexivity.
Qed.

Lemma extract_legal_entities_keeps_every_span_witness :
  ∃ entities,
    extract_legal_entities twice_reported "John Smith" = Ok entities ∧
    (∀ category, category ∈ ner_categories →
       entities !! category =
         Some (span_text <$> filter (λ ent, label_ ent = category)
                 [ {| label_ := "PERSON"; span_text := "John Smith" |};
                   {| label_ := "PERSON"; span_text := "John Smith" |} ])) ∧
    entities !! "monetary_amounts" = Some (findall money_match "John Smith").
Proof.
  apply (extract_legal_entities_keeps_every_span twice_reported "John Smith").
  reflexivity.
Defined.

(** C5.  On the text "$1,500 per month... Security Deposit: $1,500", and
    whatever the recognizer reports, the list under 'monetary_amounts' is
    ["$1,500"; "$1,500"]: both occurrences, in text order. *)
Theorem extract_legal_entities_rent_amounts self ents :
  nlp self rent_text = Ok ents →
  ∃ entities, extract_legal_entities self rent_text = Ok entities ∧
    entities !! "monetary_amounts" = Some ["$1,500"; "$1,500"].
Proof.
  intros Hnlp.
  destruct (extract_legal_entities_money self rent_text ents Hnlp)
    as (entities & Hex & Hmoney).
  exists entities. split; [done|]. rewrite Hmoney. by vm_compute.
Qed.

Lemma extract_legal_entities_rent_amounts_witness :
  ∃ entities, extract_legal_entities twice_reported rent_text = Ok entities ∧
    entities !! "monetary_amounts" = Some ["$1,500"; "$1,500"].
Proof.
  apply (extract_legal_entities_rent_amounts twice_reported
           [ {| label_ := "PERSON"; span_text := "John Smith" |};
             {| label_ := "PERSON"; span_text := "John Smith" |} ]).
  reflexivity.
Defined.
End Entities.

(* ===================================================================== *)
(** * The clause extractor *)
(* ===================================================================== *)

Section Clauses.
Import Processor.
Variable self : LegalDocumentProcessor.
Variable context : string.

Lemma clause_step_lookup clauses question key :
  clause_step self context clauses question !! key =
    if decide (clause_key question = key)
    then match clause_of self context question with
         | Some c => Some c
         | None => clauses !! key
         end
    else clauses !! key.
Proof.
  unfold clause_step, clause_of.
  destruct (qa_pipeline self question context) as [result|e]; [|by case_decide].
  destruct (float_gt (score result) float_0_1).
  - case_decide as Hk; [subst key; by rewrite lookup_insert_eq|].
    by rewrite lookup_insert_ne.
  - by case_decide.
Qed.

(** Questions with other keys leave a key alone. *)
Lemma fold_clause_step_other questions clauses key :
  key ∉ clause_key <$> questions →
  fold_left (clause_step self context) questions clauses !! key = clauses !! key.
Proof.
  revert clauses. induction questions as [|q qs IH]; intros clauses Hk; [done|].
  rewrite fmap_cons in Hk. apply not_elem_of_cons in Hk as [Hne Hk].
  simpl. rewrite IH by done. rewrite clause_step_lookup. by case_decide.
Qed.

Lemma fold_clause_step_lookup questions clauses question :
  NoDup (clause_key <$> questions) →
  question ∈ questions →
  clauses !! clause_key question = None →
  fold_left (clause_step self context) questions clauses !! clause_key question
    = clause_of self context question.
Proof.
  revert clauses. induction questions as [|q qs IH]; intros clauses Hnd Hin Hnone.
  - by apply elem_of_nil in Hin.
  - rewrite fmap_cons in Hnd. apply NoDup_cons in Hnd as [Hq Hnd].
    simpl. apply elem_of_cons in Hin as [->|Hin].
    + rewrite fold_clause_step_other by done.
      rewrite clause_step_lookup. case_decide; [|done].
      by destruct (clause_of self context q).
    + apply IH; [done..|]. rewrite clause_step_lookup. case_decide as Hk; [|done].
      destruct Hq. rewrite Hk. by apply list_elem_of_fmap_2.
Qed.

(** Every clause in the map passed the test of some question. *)
Lemma fold_clause_step_floor questions clauses :
  map_Forall (λ _ c, (float_0_1 < confidence c)%Q) clauses →
  map_Forall (λ _ c, (float_0_1 < confidence c)%Q)
    (fold_left (clause_step self context) questions clauses).
Proof.
  revert clauses. induction questions as [|q qs IH]; intros clauses Hall; [done|].
  simpl. apply IH. unfold clause_step.
  destruct (qa_pipeline self q context) as [result|e]; [|done].
  unfold float_gt. destruct (Qle_bool (score result) float_0_1) eqn:Hle; [done|].
  simpl. apply map_Forall_insert_2; [|done]. simpl.
  apply Qnot_le_lt. intros Hc. apply Qle_bool_iff in Hc. congruence.
Qed.
End Clauses.

Section ClausesClaims.
Import Processor.

Lemma questions_keys_NoDup document_type :
  NoDup (clause_key <$> questions_for document_type).
Proof.
  unfold questions_for. repeat case_decide; apply (bool_decide_unpack _); by vm_compute.
Qed.

(** C6.  For every text, document type and behaviour of the QA collaborator,
    what the returned map holds under the key of a selected question depends
    on the answer to that question alone: the clause, when the answer clears
    the floor; nothing, when it does not or when the call raised.  So a call
    that raises on some questions omits their clauses and keeps the clause of
    every other question that clears the floor. *)
Theorem extract_key_clauses_isolates_failures
    self context document_type question :
  question ∈ questions_for document_type →
  extract_key_clauses self context document_type !! clause_key question =
    match qa_pipeline self question context with
    | Ok result =>
        if float_gt (score result) float_0_1
        then Some {| text := answer result; confidence := score result |}
        else None
    | Raise _ => None
    end.
Proof.
  intros Hin. unfold extract_key_clauses.
  rewrite (fold_clause_step_lookup self context); try done.
  apply questions_keys_NoDup.
Qed.

Lemma extract_key_clauses_isolates_failures_witness :
  extract_key_clauses salary_only "salary of $120,000" (Some "employment")
    !! clause_key "What is the salary?"
  = Some {| text := "$120,000"; confidence := 9 # 10 |}.
Proof.
  apply (extract_key_clauses_isolates_failures salary_only "salary of $120,000"
           (Some "employment") "What is the salary?").
  by vm_compute; left.
Defined.

(** C8.  Every clause of the returned map has a confidence strictly above
    the floor: above the double that the literal [0.1] denotes, and so above
    one tenth. *)
Theorem extract_key_clauses_above_floor self context document_type key clause :
  extract_key_clauses self context document_type !! key = Some clause →
  (float_0_1 < confidence clause)%Q ∧ (1 # 10 < confidence clause)%Q.
Proof.
  intros Hk.
  assert (float_0_1 < confidence clause)%Q as Hfloor.
  { revert Hk. apply (fold_clause_step_floor self context). apply map_Forall_empty. }
  split; [done|]. eapply Qlt_trans; [|done]. by vm_compute.
Qed.

Lemma extract_key_clauses_above_floor_witness :
  (float_0_1 < 9 # 10)%Q ∧ (1 # 10 < 9 # 10)%Q.
Proof.
  apply (extract_key_clauses_above_floor salary_only "salary of $120,000"
           (Some "employment") "the salary"
           {| text := "$120,000"; confidence := 9 # 10 |}).
  by vm_compute.
Defined.
End ClausesClaims.

(* ===================================================================== *)
(** * The orchestrator *)
(* ===================================================================== *)

Section Orchestrator.
Import Processor.

(** C3.  [analyze_document] fails exactly when a required stage fails.  If
    the recognizer raises on the normalized text, the call raises that
    exception; if it returns and the summarizer raises, the call raises the
    summarizer's exception; in both cases the caller receives an exception
    and no result.  If both return, the call returns a complete result,
    whatever the QA collaborator did on any question: the clauses are those
    of the clause extractor, which cannot raise.  Hence the call raises if
    and only if the recognizer or the summarizer does. *)
Theorem analyze_document_fails_iff_required_stage_fails self now text :
  let processed_text := preprocess_text text in
  match nlp self processed_text,
        t5 self ("summarize: " +:+ processed_text) 150 with
  | Raise e, _ => analyze_document self now text = Raise e
  | Ok _, Raise e => analyze_document self now text = Raise e
  | Ok ents, Ok generated =>
      ∃ r, analyze_document self now text = Ok r ∧
        summary r = generated ∧
        extract_legal_entities self processed_text = Ok (entities r) ∧
        key_clauses r =
          extract_key_clauses self processed_text
            (Some (info_type (document_info r)))
  end ∧
  ((∃ e, analyze_document self now text = Raise e) ↔
   (∃ e, nlp self processed_text = Raise e) ∨
   (∃ e, t5 self ("summarize: " +:+ processed_text) 150 = Raise e)).
Proof.
  intros processed_text. unfold analyze_document. fold processed_text.
  destruct (classify_document_type_eq processed_text) as (c & _ & -> & _).
  rewrite bind_Ok. unfold generate_summary.
  destruct (nlp self processed_text) as [ents|e] eqn:Hnlp.
  - destruct (extract_legal_entities_money self processed_text ents Hnlp)
      as (found & -> & _).
    rewrite bind_Ok.
    destruct (t5 self ("summarize: " +:+ processed_text) 150) as [generated|e].
    + rewrite bind_Ok. split; [by eexists|].
      split; [by intros [? ?]|]. by intros [[? ?]|[? ?]].
    + rewrite bind_Raise. split; [done|]. split; eauto.
  - unfold extract_legal_entities. rewrite Hnlp, !bind_Raise.
    split; [done|]. split; eauto.
Qed.
End Orchestrator.

(* ===================================================================== *)
(** * Suffixes and blank strings *)
(* ===================================================================== *)

Section SuffixFacts.
Implicit Types s t : string.

Lemma rev_app_spec s t : String.rev_app s t = String.rev s +:+ t.
Proof.
  revert t. induction s as [|c s IH]; intros t; [done|].
  unfold String.rev. simpl. rewrite (IH (String c t)), (IH (String c "")).
  by rewrite app_assoc_str.
Qed.

Lemma rev_String c s : String.rev (String c s) = String.rev s +:+ String c "".
Proof. unfold String.rev at 1. simpl. apply rev_app_spec. Qed.

Lemma rev_app_distr s t : String.rev (s +:+ t) = String.rev t +:+ String.rev s.
Proof.
  induction s as [|c s IH].
  - by rewrite app_empty_l, app_empty_r.
  - by rewrite app_String, !rev_String, IH, app_assoc_str.
Qed.

Lemma rev_involutive s : String.rev (String.rev s) = s.
Proof.
  induction s as [|c s IH]; [done|]. by rewrite rev_String, rev_app_distr, IH.
Qed.

Lemma endswith_spec suffix s :
  endswith suffix s = true ↔ ∃ stem, s = stem +:+ suffix.
Proof.
  unfold endswith. rewrite startswith_spec. split.
  - intros [t Ht]. exists (String.rev t).
    by rewrite <- (rev_involutive s), Ht, rev_app_distr, rev_involutive.
  - intros [stem ->]. exists (String.rev stem). apply rev_app_distr.
Qed.

Lemma lstrip_empty s : lstrip s = "" ↔ whitespace_only s.
Proof.
  unfold whitespace_only. induction s as [|c s IH]; simpl.
  - split; [constructor|done].
  - rewrite Forall_cons. destruct (isspace c).
    + rewrite IH. split; [by split|by intros [_ ?]].
    + split; [done|]. by intros [? _].
Qed.

Lemma lstrip_head s c t : lstrip s = String c t → isspace c = false.
Proof.
  induction s as [|a s IH]; simpl; [done|].
  destruct (isspace a) eqn:Ha; [done|]. by intros [= <- _].
Qed.

Lemma rev_empty s : String.rev s = "" → s = "".
Proof. intros H. by rewrite <- (rev_involutive s), H. Qed.

(** [not text.strip()] holds for the blank strings and for no other. *)
Lemma strip_falsy s : str_falsy (strip s) = true ↔ whitespace_only s.
Proof.
  assert (∀ t, str_falsy t = true ↔ t = "") as Hfalsy by (by intros [|? ?]).
  rewrite Hfalsy. unfold strip. split.
  - intros H%rev_empty. apply lstrip_empty.
    destruct (lstrip s) as [|c t] eqn:Hs; [done|].
    pose proof (lstrip_head _ _ _ Hs) as Hc.
    rewrite rev_String in H. apply lstrip_empty in H.
    unfold whitespace_only in H.
    assert (c ∈ list_ascii_of_string (String.rev t +:+ String c "")) as Hin.
    { clear. induction (String.rev t) as [|a r IH]; simpl; [left|by right]. }
    rewrite Forall_forall in H. specialize (H _ Hin). congruence.
  - intros H%lstrip_empty. by rewrite H.
Qed.
End SuffixFacts.

(* ===================================================================== *)
(** * The request handlers *)
(* ===================================================================== *)

Section Handlers.
Import Api.
Variable processor : Processor.LegalDocumentProcessor.
Variable now : string.
Variable PdfReader : bytes → Outcome (list (Outcome string)).
Variable uuid_gen : nat → string.
Variable http_str : Z → string → string.

#[local] Abbreviation analyze_document :=
  (Api.analyze_document processor now http_str).
#[local] Abbreviation analyze_pdf_document :=
  (Api.analyze_pdf_document uuid_gen http_str).
#[local] Abbreviation analyze_pdf_document_until_read :=
  (Api.analyze_pdf_document_until_read uuid_gen).
#[local] Abbreviation analyze_pdf_document_suspend :=
  (Api.analyze_pdf_document_suspend uuid_gen http_str).
#[local] Abbreviation analyze_pdf_document_resume :=
  (Api.analyze_pdf_document_resume http_str).
#[local] Abbreviation process_pdf_background :=
  (Api.process_pdf_background processor now PdfReader http_str).
#[local] Abbreviation extract_text_from_pdf :=
  (PDFProcessor.extract_text_from_pdf PdfReader http_str).
#[local] Abbreviation step := (Api.step processor now PdfReader uuid_gen http_str).
#[local] Abbreviation reachable :=
  (Api.reachable processor now PdfReader uuid_gen http_str).
#[local] Abbreviation invariant := (Api.invariant uuid_gen).
#[local] Abbreviation submitted := (Api.submitted uuid_gen).

(** C9, on the code.  A request with an empty text is answered with status
    500: the 400 raised for it is an [Exception], so the handler's own
    [except Exception] catches it and raises the 500 it raises for every
    failure.  Nothing is changed and the pipeline is not called. *)
Theorem analyze_document_empty_text_is_500 w :
  analyze_document {| text := "" |} w =
    (Raise (HTTPException 500 (http_str 400 "No document content provided")), w).
Proof. reflexivity. Qed.

(** A failure of the pipeline gets the same status. *)
Lemma analyze_document_pipeline_failure_is_500 request w e :
  str_falsy (text request) = false →
  Processor.analyze_document processor now (text request) = Raise e →
  ∃ w', analyze_document request w
        = (Raise (HTTPException 500 (exn_str http_str e)), w').
Proof.
  intros Hne He. unfold Api.analyze_document, try_except, call_analyze.
  unfold mbind, M_bind, raise, mret, M_ret, lift, record_call.
  rewrite Hne. simpl. rewrite He. by eexists.
Qed.

(** ** Submissions *)

(** A submission whose name is refused raises before anything is done. *)
Lemma until_read_refused file w :
  (∀ name, filename file = Some name → endswith ".pdf" (str_lower name) = false) →
  ∃ e, analyze_pdf_document_until_read file w = (Raise e, w).
Proof.
  intros Hname. unfold Api.analyze_pdf_document_until_read, filename_is_pdf.
  unfold mbind, M_bind, raise, mret, M_ret.
  destruct (filename file) as [name|] eqn:Hfile; [|by eexists].
  rewrite (Hname name eq_refl). by eexists.
Qed.

(** Any submission is refused, leaving the state as it is, or draws the next
    id and writes the entry of the new job. *)
Lemma until_read_world file w :
  (∃ e, analyze_pdf_document_until_read file w = (Raise e, w)) ∨
  analyze_pdf_document_until_read file w
    = (Ok (uuid_gen (uuid_calls w)), submitted w).
Proof.
  unfold Api.analyze_pdf_document_until_read, filename_is_pdf.
  unfold mbind, M_bind, raise, mret, M_ret, uuid4, set_status.
  destruct (filename file) as [name|]; [|left; by eexists].
  destruct (endswith ".pdf" (str_lower name)); [by right|left; by eexists].
Qed.

(** C10.  A submission whose file name, in lower case, does not end in
    ".pdf" (or that has no file name) is answered with an error, and the
    state after it is the state before it: no call of [uuid4], no entry in
    [processing_status], no suspended call, no background task, no event; so
    every status query is answered as it was before.  This holds for the
    handler run in one piece and for the handler as the event loop runs
    it. *)
Theorem analyze_pdf_document_rejects_other_names file w :
  (∀ name, filename file = Some name →
           ¬ ∃ stem, str_lower name = stem +:+ ".pdf") →
  (∃ detail, analyze_pdf_document file w = (Raise (HTTPException 500 detail), w)) ∧
  analyze_pdf_document_suspend file w = w ∧
  (∀ task_id,
     get_processing_status task_id (analyze_pdf_document file w).2
     = get_processing_status task_id w).
Proof.
  intros Hname.
  destruct (until_read_refused file w) as [e He].
  { intros name Hfile. destruct (endswith ".pdf" (str_lower name)) eqn:Hends; [|done].
    destruct (Hname name Hfile). by apply endswith_spec. }
  assert (analyze_pdf_document file w
          = (Raise (HTTPException 500 (exn_str http_str e)), w)) as Hrun.
  { unfold Api.analyze_pdf_document, try_except, mbind, M_bind. by rewrite He. }
  split; [by eexists|]. split.
  - unfold Api.analyze_pdf_document_suspend. by rewrite He.
  - intros task_id. by rewrite Hrun.
Qed.

(** The handler run in one piece is the handler suspended at the read and
    resumed at once. *)
Lemma analyze_pdf_document_in_one_piece file w :
  (∃ e, analyze_pdf_document_until_read file w = (Raise e, w) ∧
        (analyze_pdf_document file w).2 = analyze_pdf_document_suspend file w) ∨
  (analyze_pdf_document file w).2 =
    (analyze_pdf_document_resume (uuid_gen (uuid_calls w)) (read file)
       (submitted w)).2.
Proof.
  destruct (until_read_world file w) as [[e He]|Hok].
  - left. exists e. split; [done|].
    unfold Api.analyze_pdf_document, Api.analyze_pdf_document_suspend.
    unfold try_except, mbind, M_bind. by rewrite He.
  - right. unfold Api.analyze_pdf_document, Api.analyze_pdf_document_resume.
    unfold try_except, mbind, M_bind. by rewrite Hok.
Qed.

Lemma suspend_world file w :
  analyze_pdf_document_suspend file w = w ∨
  analyze_pdf_document_suspend file w =
    with_awaiting_read (submitted w)
      (awaiting_read w ++ [(uuid_gen (uuid_calls w), read file)]).
Proof.
  unfold Api.analyze_pdf_document_suspend.
  destruct (until_read_world file w) as [[e ->]| ->]; [by left|by right].
Qed.

Lemma resume_world task_id read_result w :
  (analyze_pdf_document_resume task_id read_result w).2 = w ∨
  ∃ pdf_content, read_result = Ok pdf_content ∧
    (analyze_pdf_document_resume task_id read_result w).2 =
      with_background_tasks w (background_tasks w ++ [(task_id, pdf_content)]).
Proof.
  unfold Api.analyze_pdf_document_resume, analyze_pdf_document_after_read.
  unfold try_except, mbind, M_bind, lift, add_task, mret, M_ret.
  destruct read_result as [pdf_content|e]; [|by left].
  right. by exists pdf_content.
Qed.

(** ** The other handlers and the background task *)

Lemma get_processing_status_world task_id w : (get_processing_status task_id w).2 = w.
Proof. unfold get_processing_status. by destruct (processing_status w !! task_id). Qed.

Lemma analyze_document_world request w :
  (analyze_document request w).2 = w ∨
  (analyze_document request w).2 = with_events w [CallAnalyze (text request)].
Proof.
  unfold Api.analyze_document, try_except, call_analyze.
  unfold mbind, M_bind, raise, mret, M_ret, lift, record_call.
  destruct (str_falsy (text request)); [by left|]. simpl.
  destruct (Processor.analyze_document processor now (text request)); by right.
Qed.

Lemma process_pdf_background_blank task_id pdf_content text w :
  extract_text_from_pdf pdf_content = Ok text →
  str_falsy (strip text) = true →
  process_pdf_background task_id pdf_content w =
    (Ok (),
     after_run w task_id
       [ SetStatus task_id entry_extracting_text;
         SetStatus task_id (entry_error "Could not extract text from PDF") ]
       (entry_error "Could not extract text from PDF")).
Proof.
  intros Htext Hblank. unfold Api.process_pdf_background, try_except.
  unfold mbind, M_bind, lift, set_status, after_run. simpl.
  rewrite Htext, Hblank. simpl.
  by rewrite insert_insert_eq, <- (assoc_L (++)).
Qed.

Lemma process_pdf_background_run task_id pdf_content w :
  ∃ events final, background_run task_id events final ∧
    process_pdf_background task_id pdf_content w =
      (Ok (), after_run w task_id events final).
Proof.
  unfold Api.process_pdf_background, try_except, call_analyze.
  unfold mbind, M_bind, lift, set_status, record_call, after_run. simpl.
  destruct (extract_text_from_pdf pdf_content) as [text|e]; simpl.
  - destruct (str_falsy (strip text)); simpl.
    + eexists _, _. split; [apply run_no_text|].
      by rewrite insert_insert_eq, <- (assoc_L (++)).
    + destruct (Processor.analyze_document processor now text) as [r|e]; simpl.
      * eexists _, _. split; [apply (run_completed _ text r)|].
        by rewrite !insert_insert_eq, <- !(assoc_L (++)).
      * eexists _, _. split; [apply (run_analysis_failed _ text)|].
        by rewrite !insert_insert_eq, <- !(assoc_L (++)).
  - eexists _, _. split; [apply run_no_text|].
    by rewrite insert_insert_eq, <- (assoc_L (++)).
Qed.

(** ** The histories of the jobs *)

Lemma history_app task_id l1 l2 :
  history task_id (l1 ++ l2) = history task_id l1 ++ history task_id l2.
Proof.
  induction l1 as [|[k e|t] l1 IH]; simpl; [done| |done].
  case_decide; [|done]. by rewrite IH.
Qed.

Lemma background_run_other task_id events final k :
  background_run task_id events final → k ≠ task_id → history k events = [].
Proof. intros [] Hk; simpl; by repeat case_decide. Qed.

Lemma background_run_history task_id events final :
  background_run task_id events final →
  job_history (entry_starting :: history task_id events) ∧
  last (entry_starting :: history task_id events) = Some final.
Proof.
  intros []; simpl; repeat case_decide; try done; split; try done; constructor.
Qed.

Lemma job_history_forward h :
  job_history h →
  (∀ i e1 e2, h !! i = Some e1 → h !! S i = Some e2 → later e1 e2) ∧
  (∀ i e, h !! i = Some e → terminal e → S i = length h) ∧
  (∀ e, e ∈ h → entry_shape e) ∧
  (h = [] ∨ head h = Some entry_starting).
Proof.
  intros Hh. split; [|split; [|split]].
  - intros i e1 e2 H1 H2.
    destruct Hh; repeat (destruct i as [|i]; simplify_eq/=);
      eexists _, _; (split; [reflexivity|split; [reflexivity|lia]]).
  - intros i e Hi [Ht|Ht].
    + destruct Hh; repeat (destruct i as [|i]; simplify_eq/=); done.
    + destruct Hh; repeat (destruct i as [|i]; simplify_eq/=); done.
  - intros e He. unfold entry_shape.
    destruct Hh; repeat (apply elem_of_cons in He as [->|He]); eauto 10;
      by apply elem_of_nil in He.
  - destruct Hh; eauto.
Qed.

(** A history that ends in a terminal state has no continuation. *)
Lemma job_history_final h e new :
  job_history h → last h = Some e → terminal e → job_history (h ++ new) →
  new = [].
Proof.
  intros Hh Hlast Hterm Hnew.
  destruct Hh; simplify_eq/=; destruct Hterm as [?|?]; try discriminate;
    inversion Hnew; done.
Qed.

(** ** The invariant *)

Lemma invariant_initial : invariant initial.
Proof.
  split; simpl; try done.
  - constructor.
  - intros k Hin. by apply elem_of_nil in Hin.
  - constructor.
Qed.

Lemma invariant_with_calls w text :
  invariant w → invariant (with_events w [CallAnalyze text]).
Proof.
  intros [H1 H2 H3 H4 H5].
  assert (∀ k, history k (log w ++ [CallAnalyze text]) = history k (log w)) as Hh.
  { intros k. rewrite history_app. simpl. apply app_nil_r. }
  split; simpl; intros; rewrite ?Hh; eauto. apply H5. by rewrite <- Hh.
Qed.

(** Ids are never issued twice. *)
Hypothesis uuid_fresh : Inj (=) (=) uuid_gen.

Lemma invariant_unissued w :
  invariant w → history (uuid_gen (uuid_calls w)) (log w) = [].
Proof.
  intros Hinv. destruct (history _ (log w)) as [|e h] eqn:Hh; [done|].
  destruct (inv_issued w Hinv (uuid_gen (uuid_calls w))) as (i & Hi & Heq).
  { by rewrite Hh. }
  apply uuid_fresh in Heq. lia.
Qed.

(** A submission suspended at its read. *)
Lemma invariant_suspended w read_result :
  invariant w →
  invariant (with_awaiting_read (submitted w)
               (awaiting_read w ++ [(uuid_gen (uuid_calls w), read_result)])).
Proof.
  intros Hinv. pose proof (invariant_unissued w Hinv) as Hnew.
  destruct Hinv as [H1 H2 H3 H4 H5]. set (id := uuid_gen (uuid_calls w)) in *.
  assert (∀ k, history k (log w ++ [SetStatus id entry_starting]) =
               if decide (k = id) then [entry_starting] else history k (log w))
    as Hh.
  { intros k. rewrite history_app. simpl.
    destruct (decide (id = k)) as [<-|Hne].
    - rewrite decide_True by done. by rewrite Hnew.
    - rewrite decide_False by done. apply app_nil_r. }
  assert (id ∉ pending w) as Hold.
  { intros Hin. apply H3 in Hin. by rewrite Hnew in Hin. }
  assert (pending (with_awaiting_read (submitted w)
                     (awaiting_read w ++ [(id, read_result)]))
          ≡ₚ id :: pending w) as Hperm.
  { unfold pending. simpl. rewrite fmap_app. simpl.
    rewrite <- (assoc_L (++)). simpl. symmetry. apply Permutation_middle. }
  split; unfold Api.submitted; simpl; fold id.
  - intros k. rewrite Hh. case_decide; [constructor|done].
  - intros k. rewrite Hh. case_decide as Hk.
    + subst k. by rewrite lookup_insert_eq.
    + by rewrite lookup_insert_ne.
  - intros k Hin. rewrite Hh. case_decide as Hk; [done|].
    apply H3. rewrite Hperm in Hin. by apply elem_of_cons in Hin as [?|?].
  - rewrite Hperm. by apply NoDup_cons.
  - intros k. rewrite Hh. case_decide as Hk.
    + intros _. exists (uuid_calls w). split; [lia|done].
    + intros Hne. destruct (H5 k Hne) as (i & Hi & ->). exists i. split; [lia|done].
Qed.

(** A suspended submission resumed: its job passes from the calls that wait
    for a read to the background tasks, or is dropped when the read raised. *)
Lemma invariant_resumed w task_id read_result before after :
  invariant w →
  awaiting_read w = before ++ (task_id, read_result) :: after →
  invariant (analyze_pdf_document_resume task_id read_result
               (with_awaiting_read w (before ++ after))).2.
Proof.
  intros [H1 H2 H3 H4 H5] Hwait.
  assert (pending w ≡ₚ task_id :: pending (with_awaiting_read w (before ++ after)))
    as Hperm.
  { unfold pending. simpl. rewrite Hwait, !fmap_app, fmap_cons. simpl.
    rewrite <- !(assoc_L (++)). simpl. symmetry. apply Permutation_middle. }
  destruct (resume_world task_id read_result (with_awaiting_read w (before ++ after)))
    as [->|(pdf_content & _ & ->)].
  - split; simpl; eauto.
    + intros k Hin. apply H3. rewrite Hperm. by right.
    + rewrite Hperm in H4. by apply NoDup_cons in H4 as [_ ?].
  - assert (pending (with_background_tasks (with_awaiting_read w (before ++ after))
                       (background_tasks w ++ [(task_id, pdf_content)]))
            ≡ₚ pending w) as Hperm'.
    { rewrite Hperm. unfold pending. simpl. rewrite !fmap_app. simpl.
      rewrite (assoc_L (++)). symmetry. apply Permutation_cons_append. }
    split; simpl; eauto.
    + intros k Hin. apply H3. by rewrite <- Hperm'.
    + by rewrite Hperm'.
Qed.

Lemma invariant_after_run w task_id pdf_content before after events final :
  invariant w →
  background_tasks w = before ++ (task_id, pdf_content) :: after →
  background_run task_id events final →
  invariant (after_run (with_background_tasks w (before ++ after))
               task_id events final).
Proof.
  intros [H1 H2 H3 H4 H5] Htasks Hrun.
  assert (pending w ≡ₚ
          task_id :: pending (with_background_tasks w (before ++ after)))
    as Hperm.
  { unfold pending. simpl. rewrite Htasks, !fmap_app, fmap_cons. simpl.
    rewrite !(assoc_L (++)). symmetry. apply Permutation_middle. }
  assert (history task_id (log w) = [entry_starting]) as Hstart.
  { apply H3. rewrite Hperm. left. }
  rewrite Hperm in H4. apply NoDup_cons in H4 as [Hfresh Hrest].
  destruct (background_run_history _ _ _ Hrun) as [Hjob Hlast].
  split; unfold after_run; simpl.
  - intros k. rewrite history_app. destruct (decide (k = task_id)) as [->|Hk].
    + by rewrite Hstart.
    + rewrite (background_run_other _ _ _ k Hrun Hk), app_nil_r. apply H1.
  - intros k. rewrite history_app. destruct (decide (k = task_id)) as [->|Hk].
    + by rewrite lookup_insert_eq, Hstart, <- Hlast.
    + rewrite lookup_insert_ne by done.
      rewrite (background_run_other _ _ _ k Hrun Hk), app_nil_r. apply H2.
  - intros k Hin. assert (k ≠ task_id) as Hk by (by intros ->).
    rewrite history_app, (background_run_other _ _ _ k Hrun Hk), app_nil_r.
    apply H3. rewrite Hperm. by right.
  - done.
  - intros k. rewrite history_app. destruct (decide (k = task_id)) as [->|Hk].
    + intros _. apply H5. by rewrite Hstart.
    + rewrite (background_run_other _ _ _ k Hrun Hk), app_nil_r. apply H5.
Qed.

Lemma invariant_step w w' : invariant w → step w w' → invariant w'.
Proof.
  intros Hinv Hstep. destruct Hstep as [request w|task_id w|file w|
    task_id read_result before after w Hwait|
    task_id pdf_content before after w Htasks].
  - destruct (analyze_document_world request w) as [->| ->]; [done|].
    by apply invariant_with_calls.
  - by rewrite get_processing_status_world.
  - destruct (suspend_world file w) as [->| ->]; [done|].
    by apply invariant_suspended.
  - by apply invariant_resumed.
  - destruct (process_pdf_background_run task_id pdf_content
                (with_background_tasks w (before ++ after)))
      as (events & final & Hrun & ->).
    simpl. by eapply invariant_after_run.
Qed.

Lemma invariant_reachable w : reachable w → invariant w.
Proof. induction 1; eauto using invariant_initial, invariant_step. Qed.

(** ** Forward only *)

Lemma step_log w w' : step w w' → ∃ events, log w' = log w ++ events.
Proof.
  intros Hstep. destruct Hstep as [request w|task_id w|file w|
    task_id read_result before after w Hwait|
    task_id pdf_content before after w Htasks].
  - destruct (analyze_document_world request w) as [->| ->];
      [exists []; by rewrite app_nil_r|by eexists].
  - rewrite get_processing_status_world. exists []. by rewrite app_nil_r.
  - destruct (suspend_world file w) as [->| ->];
      [exists []; by rewrite app_nil_r|by eexists].
  - destruct (resume_world task_id read_result
                (with_awaiting_read w (before ++ after)))
      as [->|(pdf_content & _ & ->)]; exists []; by rewrite app_nil_r.
  - destruct (process_pdf_background_run task_id pdf_content
                (with_background_tasks w (before ++ after)))
      as (events & final & _ & ->).
    by exists events.
Qed.

Lemma rtc_step_log w w' : rtc step w w' → ∃ events, log w' = log w ++ events.
Proof.
  induction 1 as [w|w w1 w2 Hstep _ [events2 IH]].
  - exists []. by rewrite app_nil_r.
  - destruct (step_log _ _ Hstep) as [events1 H1].
    exists (events1 ++ events2). by rewrite IH, H1, (assoc_L (++)).
Qed.

Lemma rtc_step_reachable w w' : reachable w → rtc step w w' → reachable w'.
Proof. intros Hw. induction 1; eauto using Api.reachable_step. Qed.

(** C2.  In every state the server can reach, and for every job: each entry
    written for the job has a strictly later state than the entry written
    before it, in the order starting < extracting_text < analyzing <
    {completed, error}; an entry in a terminal state is the last one
    written; each entry has the shape of its state (progress 0, 10, 50, or
    100 with the result, or the error message); the first entry is the
    starting one; and the entry stored for the job is the last one written.
    Whatever the server does next only adds to what was written for the job,
    and adds nothing once the job is in a terminal state. *)
Theorem job_status_only_moves_forward w task_id :
  reachable w →
  let h := history task_id (log w) in
  (∀ i e1 e2, h !! i = Some e1 → h !! S i = Some e2 → later e1 e2) ∧
  (∀ i e, h !! i = Some e → terminal e → S i = length h) ∧
  (∀ e, e ∈ h → entry_shape e) ∧
  (h = [] ∨ head h = Some entry_starting) ∧
  processing_status w !! task_id = last h ∧
  (∀ w', step w w' →
     ∃ new, history task_id (log w') = h ++ new ∧
       (∀ e, last h = Some e → terminal e → new = [])).
Proof.
  intros Hreach h. pose proof (invariant_reachable w Hreach) as Hinv.
  destruct (job_history_forward h (inv_history w Hinv task_id))
    as (Hlater & Hterm & Hshape & Hhead).
  repeat (split; [done|]). split; [apply (inv_status w Hinv)|].
  intros w' Hstep. destruct (step_log _ _ Hstep) as [events Hlog].
  exists (history task_id events). rewrite Hlog, history_app. split; [done|].
  intros e Hlast He.
  apply (job_history_final h e); [apply (inv_history w Hinv)|done..|].
  pose proof (invariant_step w w' Hinv Hstep) as Hinv'.
  pose proof (inv_history w' Hinv' task_id) as Hjob.
  by rewrite Hlog, history_app in Hjob.
Qed.

(** C7.  When the server runs the background task of a job and the text
    extracted from the PDF is empty or blank, the run writes two entries for
    the job, extracting_text and then the error "Could not extract text from
    PDF", and calls the pipeline not at all; and in every state the server
    reaches afterwards the entries written for the job are still starting,
    extracting_text and that error, so the job is never analyzing. *)
Theorem blank_pdf_job_ends_in_error
    w task_id pdf_content before after text :
  reachable w →
  background_tasks w = before ++ (task_id, pdf_content) :: after →
  extract_text_from_pdf pdf_content = Ok text →
  whitespace_only text →
  let failed := entry_error "Could not extract text from PDF" in
  let w' := (process_pdf_background task_id pdf_content
               (with_background_tasks w (before ++ after))).2 in
  log w' = log w ++ [ SetStatus task_id entry_extracting_text;
                      SetStatus task_id failed ] ∧
  analyze_calls (log w') = analyze_calls (log w) ∧
  ∀ w'', rtc step w' w'' →
    history task_id (log w'') = [entry_starting; entry_extracting_text; failed] ∧
    (entry_analyzing ∉ history task_id (log w'')) ∧
    processing_status w'' !! task_id = Some failed.
Proof.
  intros Hreach Htasks Htext Hblank failed w'.
  assert (step w w') as Hstep by (by apply Api.step_background).
  apply strip_falsy in Hblank.
  unfold w' in *. clear w'.
  rewrite (process_pdf_background_blank _ _ text) in * by done.
  simpl in *. set (w' := after_run _ _ _ _) in *.
  split; [done|]. split.
  { unfold analyze_calls. rewrite omap_app. simpl. apply app_nil_r. }
  pose proof (invariant_reachable w Hreach) as Hinv.
  assert (history task_id (log w) = [entry_starting]) as Hstart.
  { apply (inv_pending w Hinv task_id). unfold pending. rewrite Htasks.
    apply elem_of_app. right. rewrite fmap_app, fmap_cons.
    apply elem_of_app. right. left. }
  assert (history task_id (log w') = [entry_starting; entry_extracting_text; failed])
    as Hw'.
  { simpl. rewrite history_app, Hstart. simpl. by rewrite !decide_True. }
  intros w'' Hlater.
  pose proof (rtc_step_reachable w' w'' (Api.reachable_step _ _ _ _ _ _ _ Hreach Hstep)
                Hlater) as Hreach''.
  pose proof (invariant_reachable w'' Hreach'') as Hinv''.
  destruct (rtc_step_log _ _ Hlater) as [events Hlog].
  pose proof (inv_history w'' Hinv'' task_id) as Hjob.
  rewrite Hlog, history_app, Hw' in Hjob.
  assert (history task_id events = []) as Hnone.
  { apply (job_history_final [entry_starting; entry_extracting_text; failed] failed);
      [constructor|done|by right|done]. }
  assert (history task_id (log w'') = [entry_starting; entry_extracting_text; failed])
    as Hw''.
  { by rewrite Hlog, history_app, Hw', Hnone. }
  split; [done|]. split.
  - rewrite Hw''. intros Hin.
    repeat (apply elem_of_cons in Hin as [Hin|Hin]; [discriminate Hin|]).
    by apply elem_of_nil in Hin.
  - by rewrite (inv_status w'' Hinv''), Hw''.
Qed.
End Handlers.

(* ===================================================================== *)
(** * The claims on the example server *)
(* ===================================================================== *)

Section Example.
Import Api.

Lemma example_accepted_reachable : example_reachable example_accepted.
Proof. eapply reachable_step; [apply reachable_initial|apply step_analyze_pdf]. Qed.

Lemma example_submitted_reachable : example_reachable example_submitted.
Proof.
  eapply reachable_step; [apply example_accepted_reachable|].
  by apply (step_read _ _ _ _ _ "0" (Ok []) [] [] example_accepted).
Qed.

Lemma example_finished_reachable : example_reachable example_finished.
Proof.
  eapply reachable_step; [apply example_submitted_reachable|].
  by apply (step_background _ _ _ _ _ "0" [] [] [] example_submitted).
Qed.

Lemma job_status_only_moves_forward_witness :
  let h := history "0" (log example_finished) in
  (∀ i e1 e2, h !! i = Some e1 → h !! S i = Some e2 → later e1 e2) ∧
  (∀ i e, h !! i = Some e → terminal e → S i = length h) ∧
  (∀ e, e ∈ h → entry_shape e) ∧
  (h = [] ∨ head h = Some entry_starting) ∧
  processing_status example_finished !! "0" = last h ∧
  (∀ w', example_step example_finished w' →
     ∃ new, history "0" (log w') = h ++ new ∧
       (∀ e, last h = Some e → terminal e → new = [])).
Proof.
  apply (job_status_only_moves_forward salary_only example_now example_reader
           example_uuid example_http_str).
  - unfold example_uuid. apply _.
  - apply example_finished_reachable.
Defined.

Lemma blank_pdf_job_ends_in_error_witness :
  let failed := entry_error "Could not extract text from PDF" in
  log example_finished =
    log example_submitted ++ [ SetStatus "0" entry_extracting_text;
                               SetStatus "0" failed ] ∧
  analyze_calls (log example_finished) = analyze_calls (log example_submitted) ∧
  ∀ w'', rtc example_step example_finished w'' →
    history "0" (log w'') = [entry_starting; entry_extracting_text; failed] ∧
    (entry_analyzing ∉ history "0" (log w'')) ∧
    processing_status w'' !! "0" = Some failed.
Proof.
  apply (blank_pdf_job_ends_in_error salary_only example_now example_reader
           example_uuid example_http_str (pretty_nat_inj)
           example_submitted "0" [] [] [] "").
  - apply example_submitted_reachable.
  - by vm_compute.
  - by vm_compute.
  - constructor.
Defined.

Lemma analyze_pdf_document_rejects_other_names_witness :
  (∃ detail,
     Api.analyze_pdf_document example_uuid example_http_str (upload "notes.txt")
       example_finished
     = (Raise (HTTPException 500 detail), example_finished)) ∧
  Api.analyze_pdf_document_suspend example_uuid example_http_str
    (upload "notes.txt") example_finished = example_finished ∧
  (∀ task_id,
     get_processing_status task_id
       (Api.analyze_pdf_document example_uuid example_http_str (upload "notes.txt")
          example_finished).2
     = get_processing_status task_id example_finished).
Proof.
  apply (analyze_pdf_document_rejects_other_names example_uuid example_http_str
           (upload "notes.txt") example_finished).
  intros name [= <-] Hends. apply endswith_spec in Hends. by vm_compute in Hends.
Defined.
End Example.

(* ===================================================================== *)
(** * More on the handlers and the job table *)
(* ===================================================================== *)

Section JobTable.
Import Api.
Variable processor : Processor.LegalDocumentProcessor.
Variable now : string.
Variable PdfReader : bytes → Outcome (list (Outcome string)).
Variable uuid_gen : nat → string.
Variable http_str : Z → string → string.

#[local] Abbreviation analyze_document :=
  (Api.analyze_document processor now http_str).
#[local] Abbreviation analyze_pdf_document :=
  (Api.analyze_pdf_document uuid_gen http_str).
#[local] Abbreviation analyze_pdf_document_until_read :=
  (Api.analyze_pdf_document_until_read uuid_gen).
#[local] Abbreviation analyze_pdf_document_suspend :=
  (Api.analyze_pdf_document_suspend uuid_gen http_str).
#[local] Abbreviation analyze_pdf_document_resume :=
  (Api.analyze_pdf_document_resume http_str).
#[local] Abbreviation process_pdf_background :=
  (Api.process_pdf_background processor now PdfReader http_str).
#[local] Abbreviation extract_text_from_pdf :=
  (PDFProcessor.extract_text_from_pdf PdfReader http_str).
#[local] Abbreviation step := (Api.step processor now PdfReader uuid_gen http_str).
#[local] Abbreviation reachable :=
  (Api.reachable processor now PdfReader uuid_gen http_str).
#[local] Abbreviation invariant := (Api.invariant uuid_gen).
#[local] Abbreviation submitted := (Api.submitted uuid_gen).

(** X1.  [POST /analyze] never touches the job table: the entries, the id
    counter, the suspended submissions and the background tasks are as
    before.  When it answers, the text was not empty and the answer is the
    result of the pipeline on it; when it fails, the status is 500. *)
Theorem analyze_document_bypasses_job_table request w :
  let '(outcome, w') := analyze_document request w in
  processing_status w' = processing_status w ∧
  uuid_calls w' = uuid_calls w ∧
  awaiting_read w' = awaiting_read w ∧
  background_tasks w' = background_tasks w ∧
  match outcome with
  | Ok r =>
      str_falsy (text request) = false ∧
      Processor.analyze_document processor now (text request) = Ok r ∧
      log w' = log w ++ [CallAnalyze (text request)]
  | Raise e => ∃ detail, e = HTTPException 500 detail
  end.
Proof.
  unfold Api.analyze_document, try_except, call_analyze, reraise_500.
  unfold mbind, M_bind, raise, mret, M_ret, lift, record_call.
  destruct (str_falsy (text request)); simpl.
  - repeat (split; [done|]). by eexists.
  - destruct (Processor.analyze_document processor now (text request)); simpl.
    + by repeat (split; [done|]).
    + repeat (split; [done|]). by eexists.
Qed.

(** X2.  Every failure of [POST /analyze-pdf] is answered with status 500,
    the refusal of a file that is not a PDF included. *)
Theorem analyze_pdf_document_fails_with_500 file w e w' :
  analyze_pdf_document file w = (Raise e, w') →
  ∃ detail, e = HTTPException 500 detail.
Proof.
  unfold Api.analyze_pdf_document, try_except, reraise_500, raise.
  match goal with |- context [match ?body with _ => _ end] =>
    destruct body as [[r|e0] w0] end; [done|].
  intros [= <- _]. by eexists.
Qed.

(** X3.  An accepted submission, read without error, answers with the next
    id; a status query for that id right after it gives the starting entry,
    and the background task of the job has been added. *)
Theorem analyze_pdf_document_then_status file name pdf_content w :
  filename file = Some name →
  (∃ stem, str_lower name = stem +:+ ".pdf") →
  read file = Ok pdf_content →
  let id := uuid_gen (uuid_calls w) in
  ∃ w',
    analyze_pdf_document file w
      = (Ok {| task_id := id; submitted_status := "processing" |}, w') ∧
    get_processing_status id w' = (Ok entry_starting, w') ∧
    background_tasks w' = background_tasks w ++ [(id, pdf_content)] ∧
    uuid_calls w' = S (uuid_calls w).
Proof.
  intros Hname Hpdf%endswith_spec Hread id.
  unfold Api.analyze_pdf_document, Api.analyze_pdf_document_until_read.
  unfold analyze_pdf_document_after_read, filename_is_pdf, try_except.
  unfold mbind, M_bind, raise, mret, M_ret, uuid4, set_status, lift, add_task.
  rewrite Hname, Hpdf, Hread. simpl. eexists. split; [done|].
  unfold get_processing_status. simpl. by rewrite lookup_insert_eq.
Qed.

(** X4.  When the read of an accepted upload fails, the caller gets a 500,
    but the id was drawn and the starting entry written, and no background
    task is added. *)
Theorem analyze_pdf_document_read_failure file name e w :
  filename file = Some name →
  (∃ stem, str_lower name = stem +:+ ".pdf") →
  read file = Raise e →
  let id := uuid_gen (uuid_calls w) in
  ∃ w',
    analyze_pdf_document file w
      = (Raise (HTTPException 500 (exn_str http_str e)), w') ∧
    processing_status w' !! id = Some entry_starting ∧
    background_tasks w' = background_tasks w ∧
    uuid_calls w' = S (uuid_calls w).
Proof.
  intros Hname Hpdf%endswith_spec Hread id.
  unfold Api.analyze_pdf_document, Api.analyze_pdf_document_until_read.
  unfold analyze_pdf_document_after_read, filename_is_pdf, try_except, reraise_500.
  unfold mbind, M_bind, raise, mret, M_ret, uuid4, set_status, lift, add_task.
  rewrite Hname, Hpdf, Hread. simpl. eexists. split; [done|].
  simpl. by rewrite lookup_insert_eq.
Qed.

(** X5.  A run of the background task never raises.  It leaves its job in a
    terminal state, and changes nothing else: the entries of the other jobs,
    the id counter, the suspended submissions and the background tasks. *)
Theorem process_pdf_background_ends_terminal task_id pdf_content w :
  ∃ final w',
    process_pdf_background task_id pdf_content w = (Ok (), w') ∧
    terminal final ∧
    processing_status w' = <[task_id := final]> (processing_status w) ∧
    (∀ k, k ≠ task_id → processing_status w' !! k = processing_status w !! k) ∧
    uuid_calls w' = uuid_calls w ∧
    awaiting_read w' = awaiting_read w ∧
    background_tasks w' = background_tasks w.
Proof.
  destruct (process_pdf_background_run processor now PdfReader http_str
              task_id pdf_content w) as (events & final & Hrun & ->).
  exists final. eexists. split; [done|]. split.
  { destruct Hrun; [by right|by left|by right]. }
  split; [done|]. split; [|done].
  intros k Hk. simpl. by rewrite lookup_insert_ne.
Qed.

(** ** Entries are never removed *)

Lemma step_keeps_entries w w' k :
  step w w' → is_Some (processing_status w !! k) →
  is_Some (processing_status w' !! k).
Proof.
  intros Hstep Hk. destruct Hstep as [request w|task_id w|file w|
    task_id read_result before after w Hwait|
    task_id pdf_content before after w Htasks].
  - by destruct (analyze_document_world processor now http_str request w)
      as [->| ->].
  - by rewrite get_processing_status_world.
  - destruct (suspend_world uuid_gen http_str file w) as [->| ->]; [done|].
    simpl. rewrite lookup_insert. case_decide; [by eexists|done].
  - by destruct (resume_world http_str task_id read_result
                   (with_awaiting_read w (before ++ after)))
      as [->|(pdf_content & _ & ->)].
  - destruct (process_pdf_background_run processor now PdfReader http_str
                task_id pdf_content (with_background_tasks w (before ++ after)))
      as (events & final & _ & ->).
    simpl. rewrite lookup_insert. case_decide; [by eexists|done].
Qed.

(** X6.  An entry of the job table is never removed: a job that a status
    query finds is found by every later one. *)
Theorem job_entries_are_never_removed w w' k entry :
  rtc step w w' →
  get_processing_status k w = (Ok entry, w) →
  ∃ entry', get_processing_status k w' = (Ok entry', w').
Proof.
  intros Hsteps Hfound.
  assert (is_Some (processing_status w !! k)) as Hk.
  { unfold get_processing_status in Hfound.
    destruct (processing_status w !! k); [by eexists|done]. }
  assert (is_Some (processing_status w' !! k)) as [entry' Hk'].
  { clear Hfound. induction Hsteps; eauto using step_keeps_entries. }
  exists entry'. unfold get_processing_status. by rewrite Hk'.
Qed.
(** ** Jobs that are finished, and jobs that never run *)

(** Ids are never issued twice. *)
Hypothesis uuid_fresh : Inj (=) (=) uuid_gen.

Lemma reachable_invariant w : reachable w → invariant w.
Proof. by apply invariant_reachable. Qed.

(** A job whose last entry is terminal keeps its history and its entry. *)
Lemma finished_job_stays w w' k h e :
  reachable w → rtc step w w' →
  history k (log w) = h → last h = Some e → terminal e →
  history k (log w') = h ∧ processing_status w' !! k = Some e.
Proof.
  intros Hreach Hsteps Hh Hlast Hterm.
  pose proof (rtc_step_reachable _ _ _ _ _ _ _ Hreach Hsteps) as Hreach'.
  pose proof (reachable_invariant w Hreach) as Hinv.
  pose proof (reachable_invariant w' Hreach') as Hinv'.
  destruct (rtc_step_log _ _ _ _ _ _ _ Hsteps) as [events Hlog].
  pose proof (inv_history w' Hinv' k) as Hjob.
  rewrite Hlog, history_app, Hh in Hjob.
  assert (history k events = []) as Hnone.
  { apply (job_history_final h e); [|done..].
    rewrite <- Hh. apply (inv_history w Hinv). }
  assert (history k (log w') = h) as Hh'.
  { by rewrite Hlog, history_app, Hh, Hnone, app_nil_r. }
  split; [done|]. by rewrite (inv_status w' Hinv'), Hh'.
Qed.

Lemma pending_task w task_id pdf_content before after :
  background_tasks w = before ++ (task_id, pdf_content) :: after →
  task_id ∈ pending w.
Proof.
  intros Htasks. unfold pending. rewrite Htasks, fmap_app, fmap_cons.
  apply elem_of_app. right. apply elem_of_app. right. left.
Qed.

Lemma process_pdf_background_completed task_id pdf_content text r w :
  extract_text_from_pdf pdf_content = Ok text →
  str_falsy (strip text) = false →
  Processor.analyze_document processor now text = Ok r →
  process_pdf_background task_id pdf_content w =
    (Ok (),
     after_run w task_id
       [ SetStatus task_id entry_extracting_text;
         SetStatus task_id entry_analyzing;
         CallAnalyze text;
         SetStatus task_id (entry_completed r) ]
       (entry_completed r)).
Proof.
  intros Htext Hblank Hr. unfold Api.process_pdf_background, try_except, call_analyze.
  unfold mbind, M_bind, lift, set_status, record_call, after_run. simpl.
  rewrite Htext, Hblank. simpl. rewrite Hr. simpl.
  by rewrite !insert_insert_eq, <- !(assoc_L (++)).
Qed.

Lemma process_pdf_background_analysis_failed task_id pdf_content text e w :
  extract_text_from_pdf pdf_content = Ok text →
  str_falsy (strip text) = false →
  Processor.analyze_document processor now text = Raise e →
  process_pdf_background task_id pdf_content w =
    (Ok (),
     after_run w task_id
       [ SetStatus task_id entry_extracting_text;
         SetStatus task_id entry_analyzing;
         CallAnalyze text;
         SetStatus task_id (entry_error (exn_str http_str e)) ]
       (entry_error (exn_str http_str e))).
Proof.
  intros Htext Hblank Hr. unfold Api.process_pdf_background, try_except, call_analyze.
  unfold mbind, M_bind, lift, set_status, record_call, after_run. simpl.
  rewrite Htext, Hblank. simpl. rewrite Hr. simpl.
  by rewrite !insert_insert_eq, <- !(assoc_L (++)).
Qed.

Lemma not_blank text : ¬ whitespace_only text → str_falsy (strip text) = false.
Proof.
  intros Hnb. destruct (str_falsy (strip text)) eqn:Hf; [|done].
  destruct Hnb. by apply strip_falsy.
Qed.

(** X7.  When the background task of a job runs on a PDF whose text is not
    blank and the pipeline returns, the run writes extracting_text,
    analyzing and completed with the result of the pipeline on the extracted
    text, calling the pipeline once; and in every later state the job is
    still completed with that result. *)
Theorem job_completes_with_pipeline_result
    w task_id pdf_content before after text r :
  reachable w →
  background_tasks w = before ++ (task_id, pdf_content) :: after →
  extract_text_from_pdf pdf_content = Ok text →
  ¬ whitespace_only text →
  Processor.analyze_document processor now text = Ok r →
  let w' := (process_pdf_background task_id pdf_content
               (with_background_tasks w (before ++ after))).2 in
  log w' = log w ++ [ SetStatus task_id entry_extracting_text;
                      SetStatus task_id entry_analyzing;
                      CallAnalyze text;
                      SetStatus task_id (entry_completed r) ] ∧
  ∀ w'', rtc step w' w'' →
    history task_id (log w'') =
      [entry_starting; entry_extracting_text; entry_analyzing; entry_completed r] ∧
    processing_status w'' !! task_id = Some (entry_completed r).
Proof.
  intros Hreach Htasks Htext Hnb%not_blank Hr w'.
  assert (step w w') as Hstep by (by apply Api.step_background).
  unfold w' in *. clear w'.
  rewrite (process_pdf_background_completed _ _ text r) in * by done.
  simpl in *. set (w' := after_run _ _ _ _) in *.
  split; [done|].
  pose proof (reachable_invariant w Hreach) as Hinv.
  pose proof (inv_pending w Hinv task_id (pending_task _ _ _ _ _ Htasks)) as Hstart.
  intros w'' Hlater.
  apply (finished_job_stays w' w'' task_id _ (entry_completed r));
    [by eapply Api.reachable_step|done| |done|by left].
  simpl. rewrite history_app, Hstart. simpl. by rewrite !decide_True.
Qed.

(** X8.  When the pipeline raises in the background task of a job, the run
    writes extracting_text, analyzing and the error entry whose message is
    the text of the exception; and in every later state the job is still in
    that error. *)
Theorem job_fails_with_pipeline_error
    w task_id pdf_content before after text e :
  reachable w →
  background_tasks w = before ++ (task_id, pdf_content) :: after →
  extract_text_from_pdf pdf_content = Ok text →
  ¬ whitespace_only text →
  Processor.analyze_document processor now text = Raise e →
  let failed := entry_error (exn_str http_str e) in
  let w' := (process_pdf_background task_id pdf_content
               (with_background_tasks w (before ++ after))).2 in
  log w' = log w ++ [ SetStatus task_id entry_extracting_text;
                      SetStatus task_id entry_analyzing;
                      CallAnalyze text;
                      SetStatus task_id failed ] ∧
  ∀ w'', rtc step w' w'' →
    history task_id (log w'') =
      [entry_starting; entry_extracting_text; entry_analyzing; failed] ∧
    processing_status w'' !! task_id = Some failed.
Proof.
  intros Hreach Htasks Htext Hnb%not_blank Hr failed w'.
  assert (step w w') as Hstep by (by apply Api.step_background).
  unfold w' in *. clear w'.
  rewrite (process_pdf_background_analysis_failed _ _ text e) in * by done.
  simpl in *. set (w' := after_run _ _ _ _) in *.
  split; [done|].
  pose proof (reachable_invariant w Hreach) as Hinv.
  pose proof (inv_pending w Hinv task_id (pending_task _ _ _ _ _ Htasks)) as Hstart.
  intros w'' Hlater.
  apply (finished_job_stays w' w'' task_id _ failed);
    [by eapply Api.reachable_step|done| |done|by right].
  simpl. rewrite history_app, Hstart. simpl. by rewrite !decide_True.
Qed.
(** A step adds to the jobs that wait only a job that was unknown before. *)
Lemma step_pending w w' k :
  invariant w → step w w' → k ∈ pending w' →
  k ∈ pending w ∨ history k (log w) = [].
Proof.
  intros Hinv Hstep. destruct Hstep as [request w|task_id w|file w|
    task_id read_result before after w Hwait|
    task_id pdf_content before after w Htasks].
  - destruct (analyze_document_world processor now http_str request w)
      as [->| ->]; by left.
  - rewrite get_processing_status_world. by left.
  - destruct (suspend_world uuid_gen http_str file w) as [->| ->]; [by left|].
    unfold pending. simpl. rewrite fmap_app. simpl.
    rewrite !elem_of_app, list_elem_of_singleton.
    intros [[?| ->]|?]; [by left; left| |by left; right].
    right. by apply invariant_unissued.
  - intros Hin. left. revert Hin.
    destruct (resume_world http_str task_id read_result
                (with_awaiting_read w (before ++ after)))
      as [->|(pdf_content & _ & ->)];
      unfold pending; simpl; rewrite Hwait, !fmap_app, ?fmap_cons; simpl;
      rewrite !elem_of_app, ?elem_of_cons, ?elem_of_nil; tauto.
  - destruct (process_pdf_background_run processor now PdfReader http_str
                task_id pdf_content (with_background_tasks w (before ++ after)))
      as (events & final & _ & ->).
    intros Hin. left. revert Hin.
    unfold pending; simpl; rewrite Htasks, !fmap_app, ?fmap_cons; simpl;
      rewrite !elem_of_app, ?elem_of_cons; tauto.
Qed.

(** A job that was submitted and does not wait is not written. *)
Lemma step_history_settled w w' k :
  invariant w → step w w' → k ∉ pending w → history k (log w) ≠ [] →
  history k (log w') = history k (log w).
Proof.
  intros Hinv Hstep Hk Hne. destruct Hstep as [request w|task_id w|file w|
    task_id read_result before after w Hwait|
    task_id pdf_content before after w Htasks].
  - destruct (analyze_document_world processor now http_str request w)
      as [->| ->]; [done|].
    simpl. rewrite history_app. simpl. apply app_nil_r.
  - by rewrite get_processing_status_world.
  - destruct (suspend_world uuid_gen http_str file w) as [->| ->]; [done|].
    simpl. rewrite history_app. simpl. case_decide as Hid; [|apply app_nil_r].
    destruct Hne. rewrite <- Hid. by apply invariant_unissued.
  - by destruct (resume_world http_str task_id read_result
                   (with_awaiting_read w (before ++ after)))
      as [->|(pdf_content & _ & ->)].
  - destruct (process_pdf_background_run processor now PdfReader http_str
                task_id pdf_content (with_background_tasks w (before ++ after)))
      as (events & final & Hrun & ->).
    simpl. rewrite history_app.
    rewrite (background_run_other _ _ _ k Hrun); [apply app_nil_r|].
    intros ->. apply Hk. by eapply pending_task.
Qed.

Lemma settled_job_stays w w' k :
  reachable w → rtc step w w' → k ∉ pending w → history k (log w) ≠ [] →
  history k (log w') = history k (log w).
Proof.
  intros Hreach Hsteps. induction Hsteps as [w|w w1 w2 Hstep _ IH]; [done|].
  intros Hk Hne. pose proof (reachable_invariant w Hreach) as Hinv.
  pose proof (step_history_settled w w1 k Hinv Hstep Hk Hne) as H1.
  rewrite IH; [done|by eapply Api.reachable_step| |by rewrite H1].
  intros Hin. by destruct (step_pending w w1 k Hinv Hstep Hin).
Qed.

(** X9.  When the read of an accepted upload raises, its job is left in the
    starting state for good: whatever the server does afterwards, the only
    entry ever written for the job is the starting one, and that is what
    every status query finds. *)
Theorem job_of_failed_read_stays_starting
    w task_id e before after :
  reachable w →
  awaiting_read w = before ++ (task_id, Raise e) :: after →
  let w' := (analyze_pdf_document_resume task_id (Raise e)
               (with_awaiting_read w (before ++ after))).2 in
  ∀ w'', rtc step w' w'' →
    history task_id (log w'') = [entry_starting] ∧
    get_processing_status task_id w'' = (Ok entry_starting, w'').
Proof.
  intros Hreach Hwait w' w'' Hsteps.
  assert (step w w') as Hstep by (by apply Api.step_read).
  pose proof (reachable_invariant w Hreach) as Hinv.
  assert (pending w ≡ₚ task_id :: pending w') as Hperm.
  { unfold w', pending. simpl. rewrite Hwait, !fmap_app, fmap_cons. simpl.
    rewrite <- !(assoc_L (++)). simpl. symmetry. apply Permutation_middle. }
  assert (history task_id (log w) = [entry_starting]) as Hstart.
  { apply (inv_pending w Hinv). rewrite Hperm. left. }
  assert (task_id ∉ pending w') as Hout.
  { pose proof (inv_pending_NoDup w Hinv) as Hnd. rewrite Hperm in Hnd.
    by apply NoDup_cons in Hnd as [? _]. }
  assert (history task_id (log w') = [entry_starting]) as Hstart' by done.
  assert (reachable w') as Hreach' by (by eapply Api.reachable_step).
  assert (history task_id (log w'') = [entry_starting]) as Hh.
  { rewrite (settled_job_stays w' w'' task_id); [done..|]. by rewrite Hstart'. }
  split; [done|].
  pose proof (rtc_step_reachable _ _ _ _ _ _ _ Hreach' Hsteps) as Hreach''.
  pose proof (inv_status w'' (reachable_invariant w'' Hreach'') task_id) as Hst.
  rewrite Hh in Hst. unfold get_processing_status. by rewrite Hst.
Qed.

(** ** The ids the job table knows *)

Lemma step_uuid_calls w w' :
  step w w' →
  uuid_calls w' = uuid_calls w ∨
  (uuid_calls w' = S (uuid_calls w) ∧
   is_Some (processing_status w' !! uuid_gen (uuid_calls w))).
Proof.
  intros Hstep. destruct Hstep as [request w|task_id w|file w|
    task_id read_result before after w Hwait|
    task_id pdf_content before after w Htasks].
  - destruct (analyze_document_world processor now http_str request w)
      as [->| ->]; by left.
  - rewrite get_processing_status_world. by left.
  - destruct (suspend_world uuid_gen http_str file w) as [->| ->]; [by left|].
    right. simpl. by rewrite lookup_insert_eq.
  - destruct (resume_world http_str task_id read_result
                (with_awaiting_read w (before ++ after)))
      as [->|(pdf_content & _ & ->)]; by left.
  - destruct (process_pdf_background_run processor now PdfReader http_str
                task_id pdf_content (with_background_tasks w (before ++ after)))
      as (events & final & _ & ->). by left.
Qed.

Lemma issued_ids_have_entries w i :
  reachable w → i < uuid_calls w → is_Some (processing_status w !! uuid_gen i).
Proof.
  intros Hreach. revert i. induction Hreach as [|w w' _ IH Hstep]; intros i Hi.
  - simpl in Hi. lia.
  - destruct (step_uuid_calls w w' Hstep) as [Heq|[Heq Hnew]].
    + apply (step_keeps_entries w w'); [done|]. apply IH. lia.
    + destruct (decide (i = uuid_calls w)) as [->|Hne]; [done|].
      apply (step_keeps_entries w w'); [done|]. apply IH. lia.
Qed.

(** X10.  In every state the server can reach, a status query finds an entry
    exactly for the ids drawn so far, and answers 404 for every other
    string. *)
Theorem status_known_iff_issued w k :
  reachable w →
  match (get_processing_status k w).1 with
  | Ok entry =>
      processing_status w !! k = Some entry ∧
      ∃ i, i < uuid_calls w ∧ k = uuid_gen i
  | Raise e =>
      e = HTTPException 404 "Task not found" ∧
      ∀ i, i < uuid_calls w → k ≠ uuid_gen i
  end.
Proof.
  intros Hreach. pose proof (reachable_invariant w Hreach) as Hinv.
  unfold get_processing_status.
  destruct (processing_status w !! k) as [entry|] eqn:Hk; simpl.
  - split; [done|]. apply (inv_issued w Hinv).
    rewrite (inv_status w Hinv) in Hk. by destruct (history k (log w)).
  - split; [done|]. intros i Hi ->.
    destruct (issued_ids_have_entries w i Hreach Hi) as [entry Hentry].
    congruence.
Qed.
End JobTable.

(* ===================================================================== *)
(** * The job table on the example servers *)
(* ===================================================================== *)

Section JobTableExamples.
Import Api.

Lemma lease_page_not_blank : ¬ whitespace_only lease_page.
Proof. intros H. apply Forall_cons in H as [H _]. discriminate H. Qed.

Lemma lease_submitted_reachable : lease_reachable example_submitted.
Proof.
  eapply reachable_step; [eapply reachable_step; [apply reachable_initial|]|].
  - apply (step_analyze_pdf _ _ _ _ _ (upload "Lease.PDF")).
  - by apply (step_read _ _ _ _ _ "0" (Ok []) [] [] example_accepted).
Qed.

Lemma failing_submitted_reachable : failing_reachable example_submitted.
Proof.
  eapply reachable_step; [eapply reachable_step; [apply reachable_initial|]|].
  - apply (step_analyze_pdf _ _ _ _ _ (upload "Lease.PDF")).
  - by apply (step_read _ _ _ _ _ "0" (Ok []) [] [] example_accepted).
Qed.

Lemma example_waiting_reachable : example_reachable example_waiting.
Proof.
  eapply reachable_step; [apply reachable_initial|].
  apply (step_analyze_pdf _ _ _ _ _ broken_upload).
Qed.

Lemma analyze_pdf_document_fails_with_500_witness :
  ∃ detail, HTTPException 500 "File must be a PDF" = HTTPException 500 detail.
Proof.
  apply (analyze_pdf_document_fails_with_500 example_uuid example_http_str
           (upload "notes.txt") initial _ initial).
  reflexivity.
Defined.

Lemma analyze_pdf_document_then_status_witness :
  ∃ w',
    Api.analyze_pdf_document example_uuid example_http_str (upload "Lease.PDF")
      initial
      = (Ok {| task_id := "0"; submitted_status := "processing" |}, w') ∧
    get_processing_status "0" w' = (Ok entry_starting, w') ∧
    background_tasks w' = [("0", [])] ∧
    uuid_calls w' = 1.
Proof.
  apply (analyze_pdf_document_then_status example_uuid example_http_str
           (upload "Lease.PDF") "Lease.PDF" [] initial).
  - reflexivity.
  - by exists "lease".
  - reflexivity.
Defined.

Lemma analyze_pdf_document_read_failure_witness :
  ∃ w',
    Api.analyze_pdf_document example_uuid example_http_str broken_upload initial
      = (Raise (HTTPException 500 "connection reset"), w') ∧
    processing_status w' !! "0" = Some entry_starting ∧
    background_tasks w' = [] ∧
    uuid_calls w' = 1.
Proof.
  apply (analyze_pdf_document_read_failure example_uuid example_http_str
           broken_upload "lease.pdf" (PyException "OSError" "connection reset")
           initial).
  - reflexivity.
  - by exists "lease".
  - reflexivity.
Defined.

Lemma job_entries_are_never_removed_witness :
  ∃ entry',
    get_processing_status "0" example_finished = (Ok entry', example_finished).
Proof.
  apply (job_entries_are_never_removed salary_only example_now example_reader
           example_uuid example_http_str example_submitted example_finished "0"
           entry_starting).
  - apply rtc_once.
    by apply (step_background _ _ _ _ _ "0" [] [] [] example_submitted).
  - by vm_compute.
Defined.

Lemma job_completes_with_pipeline_result_witness :
  let w' := (process_pdf_background salary_only example_now lease_reader
               example_http_str "0" []
               (with_background_tasks example_submitted [])).2 in
  log w' = log example_submitted ++
             [ SetStatus "0" entry_extracting_text;
               SetStatus "0" entry_analyzing;
               CallAnalyze lease_page;
               SetStatus "0" (entry_completed lease_result) ] ∧
  ∀ w'', rtc lease_step w' w'' →
    history "0" (log w'') =
      [entry_starting; entry_extracting_text; entry_analyzing;
       entry_completed lease_result] ∧
    processing_status w'' !! "0" = Some (entry_completed lease_result).
Proof.
  apply (job_completes_with_pipeline_result salary_only example_now lease_reader
           example_uuid example_http_str pretty_nat_inj
           example_submitted "0" [] [] [] lease_page lease_result).
  - apply lease_submitted_reachable.
  - by vm_compute.
  - by vm_compute.
  - apply lease_page_not_blank.
  - by vm_compute.
Defined.

Lemma job_fails_with_pipeline_error_witness :
  let failed := entry_error "out of memory" in
  let w' := (process_pdf_background no_summary example_now lease_reader
               example_http_str "0" []
               (with_background_tasks example_submitted [])).2 in
  log w' = log example_submitted ++
             [ SetStatus "0" entry_extracting_text;
               SetStatus "0" entry_analyzing;
               CallAnalyze lease_page;
               SetStatus "0" failed ] ∧
  ∀ w'', rtc failing_step w' w'' →
    history "0" (log w'') =
      [entry_starting; entry_extracting_text; entry_analyzing; failed] ∧
    processing_status w'' !! "0" = Some failed.
Proof.
  apply (job_fails_with_pipeline_error no_summary example_now lease_reader
           example_uuid example_http_str pretty_nat_inj
           example_submitted "0" [] [] [] lease_page
           (PyException "RuntimeError" "out of memory")).
  - apply failing_submitted_reachable.
  - by vm_compute.
  - by vm_compute.
  - apply lease_page_not_blank.
  - by vm_compute.
Defined.

Lemma job_of_failed_read_stays_starting_witness :
  let w' := (analyze_pdf_document_resume example_http_str "0"
               (Raise (PyException "OSError" "connection reset"))
               (with_awaiting_read example_waiting [])).2 in
  history "0" (log w') = [entry_starting] ∧
  get_processing_status "0" w' = (Ok entry_starting, w').
Proof.
  apply (job_of_failed_read_stays_starting salary_only example_now example_reader
           example_uuid example_http_str pretty_nat_inj
           example_waiting "0" (PyException "OSError" "connection reset") [] []).
  - apply example_waiting_reachable.
  - by vm_compute.
  - apply rtc_refl.
Defined.

Lemma status_known_iff_issued_witness :
  match (get_processing_status "0" example_finished).1 with
  | Ok entry =>
      processing_status example_finished !! "0" = Some entry ∧
      ∃ i, i < uuid_calls example_finished ∧ "0" = example_uuid i
  | Raise e =>
      e = HTTPException 404 "Task not found" ∧
      ∀ i, i < uuid_calls example_finished → "0" ≠ example_uuid i
  end.
Proof.
  apply (status_known_iff_issued salary_only example_now example_reader
           example_uuid example_http_str pretty_nat_inj example_finished "0").
  apply example_finished_reachable.
Defined.
End JobTableExamples.

(* ===================================================================== *)
(** * Stripping *)
(* ===================================================================== *)

Section Strip.
Implicit Types s t : string.

Lemma whitespace_only_app s t :
  whitespace_only (s +:+ t) ↔ whitespace_only s ∧ whitespace_only t.
Proof.
  unfold whitespace_only. induction s as [|c s IH].
  - rewrite app_empty_l. simpl. split; [by split; [constructor|]|by intros [_ ?]].
  - rewrite app_String. simpl. rewrite !Forall_cons, IH. tauto.
Qed.

Lemma whitespace_only_rev s : whitespace_only s → whitespace_only (String.rev s).
Proof.
  induction s as [|c s IH]; [done|]. intros H.
  change (String c s) with (String c "" +:+ s) in H.
  apply whitespace_only_app in H as [Hc Hs].
  rewrite rev_String. apply whitespace_only_app. auto.
Qed.

(** [lstrip] removes a blank prefix and leaves a string that does not start
    with white space. *)
Lemma lstrip_spec s :
  ∃ pre, s = pre +:+ lstrip s ∧ whitespace_only pre ∧ ¬ starts_with_space (lstrip s).
Proof.
  induction s as [|c s (pre & Hs & Hpre & Hclean)]; simpl.
  - exists "". split; [done|]. split; [constructor|]. by intros (c & rest & ? & _).
  - destruct (isspace c) eqn:Hc.
    + exists (String c pre). split; [by rewrite app_String, <- Hs|].
      split; [by constructor|done].
    + exists "". split; [done|]. split; [constructor|].
      intros (c' & rest & [= <- _] & Hc'). congruence.
Qed.

Lemma lstrip_fixed s : ¬ starts_with_space s → lstrip s = s.
Proof.
  destruct s as [|c s]; [done|]. simpl. intros Hclean.
  destruct (isspace c) eqn:Hc; [|done]. destruct Hclean. by exists c, s.
Qed.

Lemma ends_with_space_rev s : ends_with_space s ↔ starts_with_space (String.rev s).
Proof.
  split.
  - intros (c & init & -> & Hc). exists c, (String.rev init).
    by rewrite rev_app_distr.
  - intros (c & rest & Hrev & Hc). exists c, (String.rev rest). split; [|done].
    by rewrite <- (rev_involutive s), Hrev, rev_String.
Qed.

Lemma starts_with_space_app s t :
  s ≠ "" → starts_with_space (s +:+ t) → starts_with_space s.
Proof.
  destruct s as [|c s]; [done|]. intros _ (c' & rest & [= <- _] & Hc).
  by exists c, s.
Qed.

(** [strip] removes a blank prefix and a blank suffix and leaves a trimmed
    string. *)
Lemma strip_spec s :
  ∃ pre post, s = pre +:+ strip s +:+ post ∧
    whitespace_only pre ∧ whitespace_only post ∧ trimmed (strip s).
Proof.
  unfold strip.
  destruct (lstrip_spec s) as (pre & Hs & Hpre & Hclean).
  destruct (lstrip_spec (String.rev (lstrip s))) as (tail & Hrev & Htail & Hclean').
  set (core := lstrip (String.rev (lstrip s))) in *.
  assert (lstrip s = String.rev core +:+ String.rev tail) as Ha.
  { by rewrite <- (rev_involutive (lstrip s)), Hrev, rev_app_distr. }
  exists pre, (String.rev tail). split; [by rewrite <- Ha|].
  split; [done|]. split; [by apply whitespace_only_rev|]. split.
  - intros Hstart. apply Hclean. rewrite Ha.
    destruct Hstart as (c & rest & -> & Hc). by exists c, (rest +:+ String.rev tail).
  - rewrite ends_with_space_rev, rev_involutive. done.
Qed.

Lemma strip_fixed s : trimmed s → strip s = s.
Proof.
  intros [Hstart Hend]. unfold strip. rewrite (lstrip_fixed s Hstart).
  rewrite lstrip_fixed; [apply rev_involutive|].
  by rewrite <- ends_with_space_rev.
Qed.

Lemma strip_idempotent s : strip (strip s) = strip s.
Proof. destruct (strip_spec s) as (_ & _ & _ & _ & _ & H). by apply strip_fixed. Qed.

Lemma strip_blank s : whitespace_only s → strip s = "".
Proof.
  intros H%strip_falsy. by destruct (strip s).
Qed.
End Strip.

(* ===================================================================== *)
(** * The text of a PDF *)
(* ===================================================================== *)

Section PdfText.
Import Api.
Variable processor : Processor.LegalDocumentProcessor.
Variable now : string.
Variable PdfReader : bytes → Outcome (list (Outcome string)).
Variable http_str : Z → string → string.

#[local] Abbreviation extract_text_from_pdf :=
  (PDFProcessor.extract_text_from_pdf PdfReader http_str).
#[local] Abbreviation process_pdf_background :=
  (Api.process_pdf_background processor now PdfReader http_str).

(** The loop over the pages returns the texts joined, or stops at the first
    page whose extraction raises. *)
Lemma pages_text_cases pages acc :
  (∃ texts, pages = Ok <$> texts ∧
     PDFProcessor.pages_text pages acc = Ok (acc +:+ join_pages texts)) ∨
  (∃ before cause after,
     pages = (Ok <$> before) ++ Raise cause :: after ∧
     PDFProcessor.pages_text pages acc = Raise cause).
Proof.
  revert acc. induction pages as [|[page_text|cause] pages IH]; intros acc;
    cbn [PDFProcessor.pages_text].
  - left. exists []. by rewrite app_empty_r.
  - rewrite bind_Ok.
    destruct (IH (acc +:+ page_text +:+ String "010" ""))
      as [(texts & -> & ->)|(before & cause & after & -> & ->)].
    + left. exists (page_text :: texts). split; [done|]. simpl.
      by rewrite !app_assoc_str.
    + right. by exists (page_text :: before), cause, after.
  - right. by exists [], cause, pages.
Qed.

(** X11.  [extract_text_from_pdf] returns the texts of the pages, each
    followed by a line feed, joined in page order and stripped; it raises
    when the reader raises or the extraction of some page does, and what it
    raises is always an [Exception] whose message is "Failed to process PDF
    file: " followed by the text of the first such failure. *)
Theorem extract_text_from_pdf_cases pdf_file :
  match PdfReader pdf_file with
  | Raise cause => extract_text_from_pdf pdf_file = Raise (pdf_failure http_str cause)
  | Ok pages =>
      (∃ texts, pages = Ok <$> texts ∧
         extract_text_from_pdf pdf_file = Ok (strip (join_pages texts))) ∨
      (∃ before cause after,
         pages = (Ok <$> before) ++ Raise cause :: after ∧
         extract_text_from_pdf pdf_file = Raise (pdf_failure http_str cause))
  end.
Proof.
  unfold PDFProcessor.extract_text_from_pdf, pdf_failure.
  destruct (PdfReader pdf_file) as [pages|cause]; [|done].
  rewrite bind_Ok.
  destruct (pages_text_cases pages "")
    as [(texts & Hpages & ->)|(before & cause & after & Hpages & ->)].
  - left. exists texts. by rewrite bind_Ok, app_empty_l.
  - right. by exists before, cause, after.
Qed.

Lemma extract_text_from_pdf_stripped pdf_file text :
  extract_text_from_pdf pdf_file = Ok text → ∃ raw, text = strip raw.
Proof.
  unfold PDFProcessor.extract_text_from_pdf.
  destruct (PdfReader pdf_file) as [pages|cause]; [|done].
  rewrite bind_Ok. destruct (PDFProcessor.pages_text pages "") as [raw|cause]; [|done].
  rewrite bind_Ok. intros [= <-]. by exists raw.
Qed.

(** X12.  A text that [extract_text_from_pdf] returns has no white space at
    its start or end, so stripping it again gives the same text. *)
Theorem extract_text_from_pdf_trimmed pdf_file text :
  extract_text_from_pdf pdf_file = Ok text →
  trimmed text ∧ strip text = text.
Proof.
  intros Htext.
  destruct (extract_text_from_pdf_stripped pdf_file text Htext) as [raw ->].
  destruct (strip_spec raw) as (_ & _ & _ & _ & _ & H).
  split; [done|apply strip_idempotent].
Qed.

Lemma pages_text_ok texts acc :
  PDFProcessor.pages_text (Ok <$> texts) acc = Ok (acc +:+ join_pages texts).
Proof.
  revert acc. induction texts as [|page_text texts IH]; intros acc;
    cbn [fmap list_fmap PDFProcessor.pages_text join_pages foldr].
  - by rewrite app_empty_r.
  - rewrite bind_Ok, IH. by rewrite !app_assoc_str.
Qed.

Lemma extract_text_from_pdf_ok pdf_file texts :
  PdfReader pdf_file = Ok (Ok <$> texts) →
  extract_text_from_pdf pdf_file = Ok (strip (join_pages texts)).
Proof.
  intros Hpages. unfold PDFProcessor.extract_text_from_pdf.
  by rewrite Hpages, bind_Ok, pages_text_ok, bind_Ok, app_empty_l.
Qed.

Lemma join_pages_blank texts :
  Forall whitespace_only texts → whitespace_only (join_pages texts).
Proof.
  induction 1 as [|page_text texts Hpage _ IH]; simpl; [constructor|].
  apply whitespace_only_app. split; [done|].
  apply whitespace_only_app. split; [|done]. by repeat constructor.
Qed.

(** X13.  A PDF without pages, or whose pages all have a blank text, gives
    the empty string, and the background task that runs on it ends with the
    error "Could not extract text from PDF" without calling the pipeline. *)
Theorem blank_pages_fail_the_job task_id pdf_file texts w :
  PdfReader pdf_file = Ok (Ok <$> texts) →
  Forall whitespace_only texts →
  extract_text_from_pdf pdf_file = Ok "" ∧
  process_pdf_background task_id pdf_file w =
    (Ok (),
     after_run w task_id
       [ SetStatus task_id entry_extracting_text;
         SetStatus task_id (entry_error "Could not extract text from PDF") ]
       (entry_error "Could not extract text from PDF")).
Proof.
  intros Hpages Hblank.
  assert (extract_text_from_pdf pdf_file = Ok "") as Htext.
  { rewrite (extract_text_from_pdf_ok pdf_file texts Hpages).
    by rewrite strip_blank by (by apply join_pages_blank). }
  split; [done|]. by apply (process_pdf_background_blank _ _ _ _ _ _ "").
Qed.
End PdfText.

Section PdfTextExamples.
Import Api.

Lemma extract_text_from_pdf_trimmed_witness :
  trimmed lease_page ∧ strip lease_page = lease_page.
Proof.
  apply (extract_text_from_pdf_trimmed lease_reader example_http_str []).
  by vm_compute.
Defined.

Lemma blank_pages_fail_the_job_witness :
  PDFProcessor.extract_text_from_pdf example_reader example_http_str [] = Ok "" ∧
  process_pdf_background salary_only example_now example_reader example_http_str
    "0" [] initial =
    (Ok (),
     after_run initial "0"
       [ SetStatus "0" entry_extracting_text;
         SetStatus "0" (entry_error "Could not extract text from PDF") ]
       (entry_error "Could not extract text from PDF")).
Proof.
  apply (blank_pages_fail_the_job salary_only example_now example_reader
           example_http_str "0" [] ["  "] initial).
  - reflexivity.
  - by repeat constructor.
Defined.
End PdfTextExamples.

(* ===================================================================== *)
(** * More on the extractors *)
(* ===================================================================== *)

Section Extractors.
Import Processor.

Lemma add_entity_dom entities ent : dom (add_entity entities ent) = dom entities.
Proof.
  unfold add_entity. destruct (entities !! label_ ent) as [spans|] eqn:Hl; [|done].
  rewrite dom_insert_L. apply elem_of_dom_2 in Hl.
  apply (anti_symm (⊆)); [|apply union_subseteq_r].
  apply union_subseteq. split; [by apply singleton_subseteq_l|done].
Qed.

Lemma fold_add_entity_dom ents entities :
  dom (fold_left add_entity ents entities) = dom entities.
Proof.
  revert entities. induction ents as [|ent ents IH]; intros entities; [done|].
  simpl. by rewrite IH, add_entity_dom.
Qed.

Lemma entities_dom ents found :
  dom (<["monetary_amounts" := found]> (fold_left add_entity ents empty_entities))
  = ({[ "PERSON"; "ORG"; "DATE"; "MONEY"; "GPE"; "monetary_amounts" ]}
       : gset string).
Proof.
  rewrite dom_insert_L, fold_add_entity_dom. unfold empty_entities.
  rewrite !dom_insert_L, dom_empty_L. set_solver.
Qed.

(** X14.  [extract_legal_entities] raises exactly when the recognizer does,
    with the recognizer's exception; otherwise its result has the six keys
    PERSON, ORG, DATE, MONEY, GPE and monetary_amounts, and no other,
    whatever labels the recognizer reports. *)
Theorem extract_legal_entities_keys self text :
  match nlp self text with
  | Raise e => extract_legal_entities self text = Raise e
  | Ok ents =>
      ∃ entities, extract_legal_entities self text = Ok entities ∧
        dom entities =
          ({[ "PERSON"; "ORG"; "DATE"; "MONEY"; "GPE"; "monetary_amounts" ]}
             : gset string)
  end.
Proof.
  unfold extract_legal_entities. destruct (nlp self text) as [ents|e]; [|done].
  rewrite bind_Ok. eexists. split; [done|]. apply entities_dom.
Qed.

(** ** Amounts *)

Lemma money_run_app s : s = (money_run s).1 +:+ (money_run s).2.
Proof.
  induction s as [|c s IH]; simpl; [done|].
  destruct (isdigit c || bool_decide (c = ","%char)); [|done].
  destruct (money_run s) as [run rest]. simpl in *. by rewrite app_String, <- IH.
Qed.

Lemma money_run_head s c run :
  (money_run s).1 = String c run → isdigit c = true ∨ c = ","%char.
Proof.
  destruct s as [|a s]; simpl; [done|].
  destruct (isdigit a) eqn:Hd; simpl.
  - destruct (money_run s). simpl. intros [= <- _]. by left.
  - case_bool_decide as Hc; [|done].
    destruct (money_run s). simpl. intros [= <- _]. by right.
Qed.

(** A match of the amount pattern is a prefix of the string it is tried on:
    a dollar sign and then a digit or a comma. *)
Lemma money_match_prefix s m :
  money_match s = Some m →
  (∃ rest, s = m +:+ rest) ∧
  ∃ d more, m = String "$" (String d more) ∧ (isdigit d = true ∨ d = ","%char).
Proof.
  destruct s as [|c s1]; simpl; [done|].
  case_bool_decide as Hc; [subst c|done].
  pose proof (money_run_app s1) as Happ.
  pose proof (money_run_head s1) as Hhead.
  destruct (money_run s1) as [run rest]. simpl in *.
  destruct run as [|d more]; [done|].
  specialize (Hhead d more eq_refl).
  assert (∀ m', m = m' → m' = String "$" (String d more) →
                (∃ rest', String "$" s1 = m +:+ rest') ∧
                ∃ d more, m = String "$" (String d more) ∧
                          (isdigit d = true ∨ d = ","%char)) as Hplain.
  { intros m' -> ->. split; [|by eauto].
    exists rest. by rewrite Happ. }
  destruct rest as [|p [|d1 [|d2 rest']]]; try (intros [= <-]; by eapply Hplain).
  destruct (bool_decide (p = "."%char) && isdigit d1 && isdigit d2);
    [|intros [= <-]; by eapply Hplain].
  intros [= <-]. split.
  - exists rest'. rewrite Happ, !app_String. f_equal. f_equal.
    by rewrite app_assoc_str.
  - rewrite app_String. eauto.
Qed.

Lemma prefix_length (m rest : string) :
  String.length (m +:+ rest) = String.length m + String.length rest.
Proof. induction m as [|c m IH]; [done|]. rewrite app_String. simpl. by rewrite IH. Qed.

Lemma findall_from_matches match_at skip s m :
  m ∈ findall_from match_at skip s → ∃ s', match_at s' = Some m.
Proof.
  revert skip. induction s as [|c s IH]; intros skip; cbn [findall_from].
  - by intros ?%elem_of_nil.
  - destruct skip as [|k]; [|apply IH].
    destruct (match_at (String c s)) as [m'|] eqn:Hm; [|apply IH].
    intros [->|Hin]%elem_of_cons; [by eexists|by eapply IH].
Qed.

Section Findall.
Variable match_at : string → option string.
Hypothesis match_at_prefix : ∀ s m, match_at s = Some m → ∃ rest, s = m +:+ rest.

Lemma findall_from_substrings skip s m :
  m ∈ findall_from match_at skip s → ∃ pre post, s = pre +:+ m +:+ post.
Proof.
  revert skip. induction s as [|c s IH]; intros skip; simpl.
  - by intros ?%elem_of_nil.
  - assert (∀ k, m ∈ findall_from match_at k s →
                 ∃ pre post, String c s = pre +:+ m +:+ post) as Hlater.
    { intros k (pre & post & ->)%IH. by exists (String c pre), post. }
    destruct skip as [|k]; [|by apply Hlater].
    destruct (match_at (String c s)) as [m'|] eqn:Hm; [|by apply Hlater].
    intros [->|Hin]%elem_of_cons; [|by eapply Hlater].
    destruct (match_at_prefix _ _ Hm) as [rest Hrest]. by exists "", rest.
Qed.

Lemma findall_from_lengths skip s :
  sum_list (String.length <$> findall_from match_at skip s) ≤ String.length s - skip.
Proof.
  revert skip. induction s as [|c s IH]; intros skip; [simpl; lia|].
  cbn [findall_from].
  change (String.length (String c s)) with (S (String.length s)).
  destruct skip as [|k]; [|apply IH].
  destruct (match_at (String c s)) as [m|] eqn:Hm.
  - destruct (match_at_prefix _ _ Hm) as [rest Hrest].
    assert (String.length m ≤ S (String.length s)) as Hle.
    { change (S (String.length s)) with (String.length (String c s)).
      rewrite Hrest, prefix_length. lia. }
    specialize (IH (String.length m - 1)).
    change (sum_list (String.length <$> m :: ?l))
      with (String.length m + sum_list (String.length <$> l)).
    lia.
  - specialize (IH 0). lia.
Qed.
End Findall.

(** X15.  Every amount under 'monetary_amounts' is a piece of the text as it
    stands there, begins with a dollar sign followed by a digit or a comma,
    and the amounts do not overlap: their lengths add up to no more than the
    length of the text. *)
Theorem monetary_amounts_are_pieces_of_the_text text :
  (∀ m, m ∈ findall money_match text →
     (∃ pre post, text = pre +:+ m +:+ post) ∧
     ∃ d more, m = String "$" (String d more) ∧ (isdigit d = true ∨ d = ","%char)) ∧
  sum_list (String.length <$> findall money_match text) ≤ String.length text.
Proof.
  assert (∀ s m, money_match s = Some m → ∃ rest, s = m +:+ rest) as Hprefix.
  { intros s m Hm. by apply money_match_prefix in Hm as [? _]. }
  split.
  - intros m Hin. split; [by eapply findall_from_substrings|].
    apply findall_from_matches in Hin as [s Hm].
    by apply money_match_prefix in Hm as [_ ?].
  - pose proof (findall_from_lengths money_match Hprefix 0 text). unfold findall. lia.
Qed.
End Extractors.

(* ===================================================================== *)
(** * More on the clauses and on the classifier *)
(* ===================================================================== *)

Section ClausesAndScores.
Import Processor.

(** X16.  Every clause of the returned map is the answer that the QA
    collaborator gave to one of the selected questions, with a score above
    the floor, stored under the key of that question: the map has no other
    keys and no other contents. *)
Theorem extract_key_clauses_provenance self context document_type key clause :
  extract_key_clauses self context document_type !! key = Some clause →
  ∃ question result,
    question ∈ questions_for document_type ∧
    clause_key question = key ∧
    qa_pipeline self question context = Ok result ∧
    float_gt (score result) float_0_1 = true ∧
    clause = {| text := answer result; confidence := score result |}.
Proof.
  unfold extract_key_clauses. intros Hkey.
  destruct (decide (key ∈ clause_key <$> questions_for document_type))
    as [Hin|Hout].
  - apply list_elem_of_fmap in Hin as (question & -> & Hin).
    rewrite (fold_clause_step_lookup self context) in Hkey;
      [|apply questions_keys_NoDup|done|done].
    unfold clause_of in Hkey.
    destruct (qa_pipeline self question context) as [result|e] eqn:Hqa; [|done].
    destruct (float_gt (score result) float_0_1) eqn:Hgt; [|done].
    injection Hkey as <-. by exists question, result.
  - by rewrite (fold_clause_step_other self context) in Hkey.
Qed.

Lemma extract_key_clauses_provenance_witness :
  ∃ question result,
    question ∈ questions_for (Some "employment") ∧
    clause_key question = "the salary" ∧
    qa_pipeline salary_only question "salary of $120,000" = Ok result ∧
    float_gt (score result) float_0_1 = true ∧
    {| text := "$120,000"; confidence := 9 # 10 |}
      = {| text := answer result; confidence := score result |}.
Proof.
  apply (extract_key_clauses_provenance salary_only "salary of $120,000"
           (Some "employment") "the salary"
           {| text := "$120,000"; confidence := 9 # 10 |}).
  by vm_compute.
Defined.

(** ** Scores *)

Lemma ratio_zero b : (ratio 0 b == 0)%Q.
Proof. unfold ratio. simpl. apply Qmult_0_l. Qed.

Lemma ratio_mono a a' b : a ≤ a' → (ratio a b <= ratio a' b)%Q.
Proof.
  intros Hle. unfold ratio, Qdiv. apply Qmult_le_compat_r.
  - rewrite <- Zle_Qle. lia.
  - apply Qinv_le_0_compat. change 0%Q with (inject_Z 0). rewrite <- Zle_Qle. lia.
Qed.

Lemma indicator_hits_mono text_lower text_lower' indicators :
  (∀ kw, str_contains kw text_lower = true → str_contains kw text_lower' = true) →
  indicator_hits text_lower indicators ≤ indicator_hits text_lower' indicators.
Proof.
  intros Hmono. unfold indicator_hits.
  induction indicators as [|kw kws IH]; [done|].
  rewrite !filter_cons. destruct (decide (str_contains kw text_lower = true)) as [Hc|Hc].
  - rewrite decide_True by auto. simpl. lia.
  - case_decide; simpl; lia.
Qed.

Lemma indicator_hits_none text indicators :
  Forall (λ kw, str_lower kw = kw) indicators →
  Forall (λ kw, ¬ occurs_ci kw text) indicators →
  indicator_hits (str_lower text) indicators = 0.
Proof.
  unfold indicator_hits. induction 1 as [|kw kws Hkw _ IH]; [done|].
  intros [Hno Hrest]%Forall_cons. rewrite filter_cons.
  rewrite decide_False; [by apply IH|].
  intros Hc. by apply Hno, contains_lower_occurs.
Qed.

Lemma str_contains_inside kw pre text post :
  str_contains kw (str_lower text) = true →
  str_contains kw (str_lower (pre +:+ text +:+ post)) = true.
Proof.
  rewrite !str_contains_spec. intros (a & b & Htext).
  exists (str_lower pre +:+ a), (b +:+ str_lower post).
  by rewrite !str_lower_app, Htext, !app_assoc_str.
Qed.

(** X17.  A text in which no keyword of the taxonomy occurs is classified as
    "contract", the type declared first, with confidence 0, and every score
    is 0. *)
Theorem classify_without_keywords text :
  Forall (λ item : string * list string,
            Forall (λ kw, ¬ occurs_ci kw text) item.2) doc_indicators →
  ∃ r, classify_document_type text = Ok r ∧
    document_type r = "contract" ∧
    (cls_confidence r == 0)%Q ∧
    Forall (λ entry : string * Q, (entry.2 == 0)%Q) (all_scores r).
Proof.
  intros Hnone.
  destruct (classify_document_type_eq text) as (r & i & Hr & Hscores & Hi & Hmax).
  assert (Forall (λ entry : string * Q, (entry.2 == 0)%Q) (all_scores r)) as Hzero.
  { rewrite Hscores. apply Forall_fmap.
    pose proof doc_indicators_wf as Hwf.
    revert Hnone Hwf. generalize doc_indicators. intros items.
    induction 1 as [|item items Hitem _ IH]; [constructor|].
    intros [(_ & _ & Hlow) Hwf]%Forall_cons. constructor; [|by apply IH].
    simpl. rewrite indicator_hits_none by done. apply ratio_zero. }
  assert (cls_confidence r == 0)%Q as Hconf.
  { rewrite Forall_lookup in Hzero. apply (Hzero _ _ Hi). }
  exists r. split; [done|]. split; [|done].
  destruct i as [|i].
  - rewrite Hscores in Hi. by injection Hi as <- _.
  - exfalso. assert (is_Some (all_scores r !! 0)) as [[t0 s0] H0].
    { apply lookup_lt_is_Some. apply lookup_lt_Some in Hi. lia. }
    destruct (Hmax 0 t0 s0 H0) as [_ Hlt]. specialize (Hlt ltac:(lia)).
    rewrite Forall_lookup in Hzero. pose proof (Hzero _ _ H0) as Hs0. simpl in Hs0.
    rewrite Hs0, Hconf in Hlt. by apply Qlt_irrefl in Hlt.
Qed.

Lemma classify_without_keywords_witness :
  ∃ r, classify_document_type "Hello, world" = Ok r ∧
    document_type r = "contract" ∧
    (cls_confidence r == 0)%Q ∧
    Forall (λ entry : string * Q, (entry.2 == 0)%Q) (all_scores r).
Proof.
  apply (classify_without_keywords "Hello, world").
  repeat (constructor; simpl);
    rewrite <- contains_lower_occurs by reflexivity; by vm_compute.
Defined.

(** X18.  Text added before or after a document never lowers the score of
    any type, nor the confidence of the classification. *)
Theorem more_text_never_lowers_scores pre text post :
  ∃ r r',
    classify_document_type text = Ok r ∧
    classify_document_type (pre +:+ text +:+ post) = Ok r' ∧
    (∀ i doc_type s s',
       all_scores r !! i = Some (doc_type, s) →
       all_scores r' !! i = Some (doc_type, s') → (s <= s')%Q) ∧
    (cls_confidence r <= cls_confidence r')%Q.
Proof.
  destruct (classify_document_type_eq text) as (r & i & Hr & Hscores & Hi & Hmax).
  destruct (classify_document_type_eq (pre +:+ text +:+ post))
    as (r' & i' & Hr' & Hscores' & Hi' & Hmax').
  exists r, r'. split; [done|]. split; [done|].
  assert (∀ j doc_type s s',
            all_scores r !! j = Some (doc_type, s) →
            all_scores r' !! j = Some (doc_type, s') → (s <= s')%Q) as Hmono.
  { intros j doc_type s s'. rewrite Hscores, Hscores', !list_lookup_fmap.
    destruct (doc_indicators !! j) as [item|]; [|done]. simpl.
    unfold scored. intros H1 H2. injection H1 as _ <-. injection H2 as _ <-.
    apply ratio_mono, indicator_hits_mono.
    intros kw. apply str_contains_inside. }
  split; [done|].
  assert (is_Some (all_scores r' !! i)) as [[t' s'] Hi''].
  { apply lookup_lt_is_Some. apply lookup_lt_Some in Hi.
    revert Hi. by rewrite Hscores, Hscores', !length_fmap. }
  assert (t' = document_type r) as ->.
  { revert Hi Hi''. rewrite Hscores, Hscores', !list_lookup_fmap.
    destruct (doc_indicators !! i) as [item|]; [|done]. simpl.
    unfold scored. intros H1 H2. injection H1 as <- _. by injection H2 as <- _. }
  eapply Qle_trans; [by eapply Hmono|]. by eapply Hmax'.
Qed.
End ClausesAndScores.

(* ===================================================================== *)
(** * The normalizer *)
(* ===================================================================== *)

Section Normalizer.
Import Processor.
Implicit Types s u : string.

Lemma ends_with_space_tail c u : ends_with_space u → ends_with_space (String c u).
Proof. intros (c' & init & -> & Hc'). by exists c', (String c init). Qed.

Lemma ends_with_space_cons c u :
  ends_with_space (String c u) →
  (u = "" ∧ isspace c = true) ∨ ends_with_space u.
Proof.
  intros (c' & [|a init] & Heq & Hc').
  - injection Heq as -> ->. by left.
  - rewrite app_String in Heq. injection Heq as _ ->. right. by exists c', init.
Qed.

(** The runs of white space of a string that does not end in white space,
    replaced by single spaces. *)
Lemma re_sub_runs_tidy u :
  ¬ ends_with_space u →
  tidy false (re_sub_runs_from false isspace " " u) ∧
  (u ≠ "" → tidy true (re_sub_runs_from true isspace " " u)).
Proof.
  induction u as [|c u IH]; intros Hend; cbn [re_sub_runs_from].
  - split; [constructor|done].
  - assert (¬ ends_with_space u) as Hend' by eauto using ends_with_space_tail.
    destruct (IH Hend') as [IH1 IH2].
    destruct (isspace c) eqn:Hc.
    + assert (u ≠ "") as Hne.
      { intros ->. apply Hend. by exists c, "". }
      split; [|intros _; by apply IH2].
      rewrite app_String, app_empty_l. apply tidy_space. by apply IH2.
    + split; [|intros _]; by apply tidy_char.
Qed.

Lemma re_sub_runs_normalized u :
  trimmed u → normalized (re_sub_runs isspace " " u).
Proof.
  intros [Hstart Hend]. unfold re_sub_runs.
  destruct u as [|c u]; [by left|]. right. cbn [re_sub_runs_from].
  destruct (isspace c) eqn:Hc; [destruct Hstart; by exists c, u|].
  constructor; [done|]. apply re_sub_runs_tidy.
  eauto using ends_with_space_tail.
Qed.

Lemma tidy_re_sub_runs after_space in_run s :
  tidy after_space s → (after_space = false → in_run = false) →
  re_sub_runs_from in_run isspace " " s = s.
Proof.
  intros Htidy. revert in_run.
  induction Htidy as [|b c s Hc _ IH|s _ IH]; intros in_run Hrun;
    cbn [re_sub_runs_from]; [done| |].
  - rewrite Hc. f_equal. by apply IH.
  - rewrite (Hrun eq_refl).
    change (isspace " ") with true. cbn iota.
    rewrite app_String, app_empty_l. f_equal. by apply IH.
Qed.

Lemma tidy_only_spaces after_space s pre c post :
  tidy after_space s → s = pre +:+ String c post → isspace c = true →
  c = " "%char.
Proof.
  intros Htidy. revert pre.
  induction Htidy as [|b a s Ha _ IH|s _ IH]; intros [|p pre] Heq Hc;
    try discriminate Heq; rewrite ?app_String in Heq.
  - injection Heq as -> _. congruence.
  - injection Heq as _ Heq. by eapply IH.
  - by injection Heq as <- _.
  - injection Heq as _ Heq. by eapply IH.
Qed.

Lemma tidy_no_double_space after_space s pre post :
  tidy after_space s → s ≠ pre +:+ "  " +:+ post.
Proof.
  intros Htidy. revert pre.
  induction Htidy as [|b a s Ha Htidy IH|s Htidy IH]; intros [|p pre] Heq;
    try discriminate Heq; rewrite ?app_String in Heq.
  - injection Heq as -> _. discriminate Ha.
  - injection Heq as _ Heq. by eapply IH.
  - injection Heq as ->. inversion Htidy as [|? ? ? Hsp|]. discriminate Hsp.
  - injection Heq as _ Heq. by eapply IH.
Qed.

Lemma tidy_end_clean after_space s : tidy after_space s → ¬ ends_with_space s.
Proof.
  induction 1 as [|b a s Ha _ IH|s Htidy IH]; intros Hend.
  - by destruct Hend as (c & [|? ?] & ? & _).
  - apply ends_with_space_cons in Hend as [[_ Hc]|Hend]; [congruence|done].
  - apply ends_with_space_cons in Hend as [[-> _]|Hend]; [|done].
    inversion Htidy.
Qed.

Lemma normalized_trimmed s : normalized s → trimmed s.
Proof.
  intros [->|Htidy].
  - split; [by intros (c & rest & ? & _)|by intros (c & [|? ?] & ? & _)].
  - split; [|by eapply tidy_end_clean].
    intros (c & rest & -> & Hc). inversion Htidy; congruence.
Qed.

Lemma normalized_single_spaced s : normalized s → single_spaced s.
Proof.
  intros [->|Htidy]; split.
  - by intros [|? ?] c post Heq.
  - by intros [|? ?] post Heq.
  - intros pre c post. by eapply tidy_only_spaces.
  - intros pre post. by eapply tidy_no_double_space.
Qed.

(** Replacing the runs of a class of which the string has no character
    changes nothing. *)
Lemma re_sub_runs_absent (cls : ascii → bool) repl in_run s :
  (∀ pre c post, s = pre +:+ String c post → cls c = false) →
  re_sub_runs_from in_run cls repl s = s.
Proof.
  revert in_run. induction s as [|c s IH]; intros in_run Hcls; [done|].
  cbn [re_sub_runs_from]. rewrite (Hcls "" c s eq_refl). f_equal.
  apply IH. intros pre a post ->. by apply (Hcls (String c pre) a post).
Qed.

Lemma normalized_fixed s : normalized s → preprocess_text s = s.
Proof.
  intros Hnorm. unfold preprocess_text.
  rewrite (strip_fixed s (normalized_trimmed s Hnorm)).
  assert (re_sub_runs isspace " " s = s) as ->.
  { destruct Hnorm as [->|Htidy]; [done|]. by eapply tidy_re_sub_runs. }
  destruct (normalized_single_spaced s Hnorm) as [Hspaces _].
  unfold re_sub_runs.
  rewrite (re_sub_runs_absent (λ c, bool_decide (c = "010"%char)) " " false s).
  - apply re_sub_runs_absent. intros pre c post Heq.
    case_bool_decide as Hc; [subst c|done].
    by discriminate (Hspaces pre _ post Heq eq_refl).
  - intros pre c post Heq. case_bool_decide as Hc; [subst c|done].
    by discriminate (Hspaces pre _ post Heq eq_refl).
Qed.

Lemma preprocess_text_normal_form text :
  preprocess_text text = re_sub_runs isspace " " (strip text).
Proof.
  assert (normalized (re_sub_runs isspace " " (strip text))) as Hnorm.
  { apply re_sub_runs_normalized.
    by destruct (strip_spec text) as (_ & _ & _ & _ & _ & ?). }
  pose proof (normalized_fixed _ Hnorm) as Hfix.
  unfold preprocess_text in Hfix.
  rewrite (strip_fixed _ (normalized_trimmed _ Hnorm)) in Hfix.
  assert (re_sub_runs isspace " " (re_sub_runs isspace " " (strip text))
          = re_sub_runs isspace " " (strip text)) as Hsame.
  { destruct Hnorm as [->|Htidy]; [done|]. by eapply tidy_re_sub_runs. }
  rewrite Hsame in Hfix. exact Hfix.
Qed.

(** X19.  [preprocess_text] gives the stripped text with every run of white
    space replaced by one space; the two substitutions that follow, for line
    feeds and for tabs, find nothing to replace.  The result has no white
    space at its ends, no white space other than the space character and no
    two spaces in a row, and normalizing it again gives it back. *)
Theorem preprocess_text_normalizes text :
  let r := preprocess_text text in
  r = re_sub_runs isspace " " (strip text) ∧
  trimmed r ∧ single_spaced r ∧ preprocess_text r = r.
Proof.
  intros r.
  assert (normalized (re_sub_runs isspace " " (strip text))) as Hnorm.
  { apply re_sub_runs_normalized.
    by destruct (strip_spec text) as (_ & _ & _ & _ & _ & ?). }
  assert (r = re_sub_runs isspace " " (strip text)) as Hr.
  { apply preprocess_text_normal_form. }
  split; [done|]. rewrite Hr.
  split; [by apply normalized_trimmed|].
  split; [by apply normalized_single_spaced|by apply normalized_fixed].
Qed.
End Normalizer.

(* ===================================================================== *)
(** * The assembled result *)
(* ===================================================================== *)

Section Result.
Import Processor.

Lemma extract_key_clauses_keys self context document_type key :
  is_Some (extract_key_clauses self context document_type !! key) →
  key ∈ clause_key <$> questions_for document_type.
Proof.
  unfold extract_key_clauses. intros [clause Hkey].
  destruct (decide (key ∈ clause_key <$> questions_for document_type)); [done|].
  by rewrite (fold_clause_step_other self context) in Hkey.
Qed.

(** X20.  A result of [analyze_document] hangs together: its type is one of
    the five types of the taxonomy and its confidence is the score recorded
    for that type; the scores are those of the five types in declaration
    order; the entities have the six keys; every clause key is a key of the
    question set chosen for the type; the length is the number of words of
    the text as it was given; and the summary is what the summarizer
    returned for "summarize: " followed by the normalized text. *)
Theorem analyze_document_result_shape self now text r :
  analyze_document self now text = Ok r →
  info_type (document_info r) ∈ doc_indicators.*1 ∧
  dict_get (classification_scores r) (info_type (document_info r))
    = Some (info_confidence (document_info r)) ∧
  (classification_scores r).*1 = doc_indicators.*1 ∧
  dom (entities r) =
    ({[ "PERSON"; "ORG"; "DATE"; "MONEY"; "GPE"; "monetary_amounts" ]}
       : gset string) ∧
  (∀ key, is_Some (key_clauses r !! key) →
     key ∈ clause_key <$> questions_for (Some (info_type (document_info r)))) ∧
  info_length (document_info r) = length (split text) ∧
  t5 self ("summarize: " +:+ preprocess_text text) 150 = Ok (summary r).
Proof.
  unfold analyze_document, generate_summary.
  set (processed_text := preprocess_text text).
  destruct (classify_document_type_eq processed_text)
    as (c & i & -> & Hscores & Hi & _).
  rewrite bind_Ok. unfold extract_legal_entities.
  destruct (nlp self processed_text) as [ents|e]; [|done].
  rewrite !bind_Ok.
  destruct (t5 self ("summarize: " +:+ processed_text) 150) as [generated|e];
    [|done].
  rewrite bind_Ok. intros [= <-].
  cbn [document_info info_type info_confidence info_length entities key_clauses
       summary classification_scores].
  assert ((all_scores c).*1 = doc_indicators.*1) as Hkeys.
  { by rewrite Hscores, scored_keys. }
  split.
  { rewrite <- Hkeys. apply list_elem_of_fmap.
    exists (document_type c, cls_confidence c). split; [done|].
    by eapply list_elem_of_lookup_2. }
  split.
  { eapply dict_get_lookup; [|done]. rewrite Hkeys. apply doc_indicators_keys. }
  split; [done|]. split; [apply entities_dom|].
  split; [apply extract_key_clauses_keys|done].
Qed.

Lemma analyze_document_result_shape_witness :
  info_type (document_info lease_result) ∈ doc_indicators.*1 ∧
  dict_get (classification_scores lease_result)
    (info_type (document_info lease_result))
    = Some (info_confidence (document_info lease_result)) ∧
  (classification_scores lease_result).*1 = doc_indicators.*1 ∧
  dom (entities lease_result) =
    ({[ "PERSON"; "ORG"; "DATE"; "MONEY"; "GPE"; "monetary_amounts" ]}
       : gset string) ∧
  (∀ key, is_Some (key_clauses lease_result !! key) →
     key ∈ clause_key <$>
             questions_for (Some (info_type (document_info lease_result)))) ∧
  info_length (document_info lease_result) = length (split lease_page) ∧
  t5 salary_only ("summarize: " +:+ preprocess_text lease_page) 150
    = Ok (summary lease_result).
Proof.
  apply (analyze_document_result_shape salary_only example_now lease_page
           lease_result).
  by vm_compute.
Defined.
End Result.

(* ===================================================================== *)
(** * Words and case *)
(* ===================================================================== *)

Section WordsAndCase.
Import Processor.
Implicit Types s u : string.

Lemma split_from_blank cur s :
  whitespace_only s → split_from cur s = option_list (String.rev <$> cur).
Proof.
  revert cur. induction s as [|c s IH]; intros cur Hs; [done|].
  apply Forall_cons in Hs as [Hc Hs]. cbn [split_from]. rewrite Hc.
  rewrite (IH None) by done. apply app_nil_r.
Qed.

Lemma split_from_blank_prefix pre s :
  whitespace_only pre → split_from None (pre +:+ s) = split_from None s.
Proof.
  induction pre as [|c pre IH]; intros Hpre; [done|].
  apply Forall_cons in Hpre as [Hc Hpre].
  rewrite app_String. cbn [split_from]. rewrite Hc. by apply IH.
Qed.

Lemma split_from_blank_suffix cur s post :
  whitespace_only post → split_from cur (s +:+ post) = split_from cur s.
Proof.
  intros Hpost. revert cur. induction s as [|c s IH]; intros cur.
  - rewrite app_empty_l. by apply split_from_blank.
  - rewrite app_String. cbn [split_from]. by rewrite !IH.
Qed.

(** Replacing runs of white space by single spaces keeps the words. *)
Lemma split_from_re_sub_runs cur in_run s :
  (in_run = true → cur = None) →
  split_from cur (re_sub_runs_from in_run isspace " " s) = split_from cur s.
Proof.
  revert cur in_run. induction s as [|c s IH]; intros cur in_run Hrun; [done|].
  cbn [re_sub_runs_from split_from]. destruct (isspace c) eqn:Hc.
  - destruct in_run.
    + rewrite (Hrun eq_refl). by apply IH.
    + rewrite app_String, app_empty_l. cbn [split_from].
      change (isspace " ") with true. cbn iota. f_equal. by apply IH.
  - cbn [split_from]. rewrite Hc. by apply IH.
Qed.

(** X21.  Normalizing a text does not change its words: [split] gives the
    same list on the text and on the normalized text, so the word count of
    a result, which is taken on the text as given, is also the word count of
    the text that the stages worked on. *)
Theorem preprocess_text_keeps_words text :
  split (preprocess_text text) = split text.
Proof.
  assert (preprocess_text text = re_sub_runs isspace " " (strip text)) as ->.
  { apply (preprocess_text_normal_form text). }
  unfold split, re_sub_runs. rewrite split_from_re_sub_runs by done.
  destruct (strip_spec text) as (pre & post & Htext & Hpre & Hpost & _).
  rewrite Htext at 2.
  by rewrite split_from_blank_prefix, split_from_blank_suffix.
Qed.

(** ** Case *)

Lemma char_lower_idempotent c : char_lower (char_lower c) = char_lower c.
Proof. by destruct c as [[] [] [] [] [] [] [] []]. Qed.

Lemma str_lower_idempotent s : str_lower (str_lower s) = str_lower s.
Proof.
  induction s as [|c s IH]; [done|]. simpl. by rewrite char_lower_idempotent, IH.
Qed.

(** X22.  The classification does not depend on the case of letters: a text
    and the same text in lower case are classified alike, and so are any two
    texts that differ only in the case of letters. *)
Theorem classify_document_type_ignores_case text :
  classify_document_type (str_lower text) = classify_document_type text ∧
  ∀ text', str_lower text' = str_lower text →
           classify_document_type text' = classify_document_type text.
Proof.
  unfold classify_document_type. split.
  - by rewrite str_lower_idempotent.
  - by intros text' ->.
Qed.
End WordsAndCase.

(* ===================================================================== *)
(** * Loading the models *)
(* ===================================================================== *)

Section Loading.
Import ProcessorInit.
Context {Tokenizer Model T5Tok T5Model QAPipeline Nlp : Type}.
Variable AutoTokenizer : string → Outcome Tokenizer.
Variable AutoModel : string → Outcome Model.
Variable T5Tokenizer : string → Outcome T5Tok.
Variable T5ForConditionalGeneration : string → Outcome T5Model.
Variable pipeline : string → string → Outcome QAPipeline.
Variable spacy_load : string → Outcome Nlp.

#[local] Abbreviation load_bert := (ProcessorInit.load_bert AutoTokenizer AutoModel).
#[local] Abbreviation init :=
  (ProcessorInit.init AutoTokenizer AutoModel T5Tokenizer
     T5ForConditionalGeneration pipeline spacy_load).

Lemma load_bert_pair tokenizer model :
  load_bert = Ok (tokenizer, model) →
  ∃ checkpoint,
    (checkpoint = legal_bert ∨
     checkpoint = bert_base ∧
     ((∃ e, AutoTokenizer legal_bert = Raise e) ∨
      (∃ e, AutoModel legal_bert = Raise e))) ∧
    AutoTokenizer checkpoint = Ok tokenizer ∧
    AutoModel checkpoint = Ok model.
Proof.
  unfold ProcessorInit.load_bert.
  destruct (AutoTokenizer legal_bert) as [t|e] eqn:Ht.
  - rewrite bind_Ok. destruct (AutoModel legal_bert) as [m|e] eqn:Hm.
    + rewrite bind_Ok. intros [= <- <-]. exists legal_bert. auto.
    + rewrite bind_Raise.
      destruct (AutoTokenizer bert_base) as [t'|e'] eqn:Ht'; [|done].
      rewrite bind_Ok. destruct (AutoModel bert_base) as [m'|e'] eqn:Hm'; [|done].
      rewrite bind_Ok. intros [= <- <-]. exists bert_base. eauto 10.
  - rewrite bind_Raise.
    destruct (AutoTokenizer bert_base) as [t'|e'] eqn:Ht'; [|done].
    rewrite bind_Ok. destruct (AutoModel bert_base) as [m'|e'] eqn:Hm'; [|done].
    rewrite bind_Ok. intros [= <- <-]. exists bert_base. eauto 10.
Qed.

(** X23.  A processor that was constructed has its tokenizer and its model
    from the same checkpoint: both from Legal-BERT, or, when loading either
    of the two from Legal-BERT raised, both from BERT-base; never the
    tokenizer of one with the model of the other. *)
Theorem init_never_mixes_checkpoints loaded :
  init = Ok loaded →
  ∃ checkpoint,
    (checkpoint = legal_bert ∨
     checkpoint = bert_base ∧
     ((∃ e, AutoTokenizer legal_bert = Raise e) ∨
      (∃ e, AutoModel legal_bert = Raise e))) ∧
    AutoTokenizer checkpoint = Ok (legal_tokenizer loaded) ∧
    AutoModel checkpoint = Ok (legal_model loaded).
Proof.
  unfold ProcessorInit.init.
  destruct load_bert as [[tokenizer model]|e] eqn:Hbert; [|done].
  rewrite bind_Ok.
  destruct (T5Tokenizer "t5-small") as [t5_tok|e]; [|done]. rewrite bind_Ok.
  destruct (T5ForConditionalGeneration "t5-small") as [t5_mod|e]; [|done].
  rewrite bind_Ok.
  destruct (pipeline _ _) as [qa|e]; [|done]. rewrite bind_Ok.
  destruct (spacy_load _) as [spacy_nlp|e]; [|done]. rewrite bind_Ok.
  intros [= <-]. simpl. by apply load_bert_pair.
Qed.

(** X24.  A failure to load Legal-BERT does not make the construction fail:
    when BERT-base, T5, the QA pipeline and the spaCy model load, the
    processor is constructed whatever loading Legal-BERT did. *)
Theorem init_survives_legal_bert_failure tokenizer model t5_tok t5_mod qa spacy_nlp :
  AutoTokenizer bert_base = Ok tokenizer →
  AutoModel bert_base = Ok model →
  T5Tokenizer "t5-small" = Ok t5_tok →
  T5ForConditionalGeneration "t5-small" = Ok t5_mod →
  pipeline "question-answering" "distilbert-base-cased-distilled-squad" = Ok qa →
  spacy_load "en_core_web_sm" = Ok spacy_nlp →
  ∃ loaded, init = Ok loaded ∧
    t5_tokenizer loaded = t5_tok ∧ t5_model loaded = t5_mod ∧
    ProcessorInit.qa_pipeline loaded = qa ∧ ProcessorInit.nlp loaded = spacy_nlp.
Proof.
  intros Ht Hm Ht5 Hm5 Hqa Hnlp. unfold ProcessorInit.init.
  assert (∃ pair, load_bert = Ok pair) as [pair ->].
  { unfold ProcessorInit.load_bert.
    destruct (AutoTokenizer legal_bert) as [t|e]; [rewrite bind_Ok|rewrite bind_Raise].
    - destruct (AutoModel legal_bert) as [m|e]; [by eexists|].
      rewrite bind_Raise, Ht, bind_Ok, Hm. by eexists.
    - rewrite Ht, bind_Ok, Hm. by eexists. }
  rewrite bind_Ok, Ht5, bind_Ok, Hm5, bind_Ok, Hqa, bind_Ok, Hnlp, bind_Ok.
  by eexists.
Qed.
End Loading.

Section LoadingExamples.
Import ProcessorInit.

Lemma init_never_mixes_checkpoints_witness :
  ∃ checkpoint,
    (checkpoint = legal_bert ∨
     checkpoint = bert_base ∧
     ((∃ e, example_tokenizer legal_bert = Raise e) ∨
      (∃ e, example_model legal_bert = Raise e))) ∧
    example_tokenizer checkpoint = Ok bert_base ∧
    example_model checkpoint = Ok bert_base.
Proof.
  apply (init_never_mixes_checkpoints example_tokenizer example_model
           example_tokenizer example_tokenizer example_pipeline example_tokenizer
           example_loaded).
  reflexivity.
Defined.

Lemma init_survives_legal_bert_failure_witness :
  ∃ loaded,
    ProcessorInit.init example_tokenizer example_model example_tokenizer
      example_tokenizer example_pipeline example_tokenizer = Ok loaded ∧
    t5_tokenizer loaded = "t5-small" ∧ t5_model loaded = "t5-small" ∧
    ProcessorInit.qa_pipeline loaded = "distilbert-base-cased-distilled-squad" ∧
    ProcessorInit.nlp loaded = "en_core_web_sm".
Proof.
  apply (init_survives_legal_bert_failure example_tokenizer example_model
           example_tokenizer example_tokenizer example_pipeline example_tokenizer
           bert_base bert_base); reflexivity.
Defined.
End LoadingExamples.
